(** * The JSON text processor of library/forms/jsonview.cpp

    A shallow embedding of the value model ([JsonValue], [JsonObject],
    [JsonArray]), the tokenizer ([JsonReader::scan]), the token-stream parser
    ([JsonReader::parse]), the serializer ([JsonWriter]) and the labels that
    the tree views compute for the members of an object, followed by the
    properties proved about them.

    Conventions of the embedding:
    - a C++ exception is a value of [exn]; a function that can throw returns
      a [result], or an [outcome] when it works on an object passed by
      reference: the outcome carries the state of that object, also at the
      moment an exception leaves the function;
    - the reader's pair (_jsonText, _actualPos) is the unread suffix of the
      text, and the token cursor (_tokenIterator, _tokenEnd) is the unread
      suffix of the token list;
    - a [double] is an IEEE 754 binary64 number ([float]); [int], [int64_t]
      and [uint64_t] values are integers of [Z];
    - loops that the code does not bound run on fuel; [Diverge] is the
      outcome of a loop that is still running when the fuel is used up. *)

From Stdlib Require Import ZArith String Ascii List Bool Lia Floats.
From Stdlib Require Import DecimalString.
From Stdlib Require OrdersEx DecimalPos.
Import ListNotations.

Local Open Scope string_scope.
Local Open Scope Z_scope.

(** ** Exceptions and outcomes *)

Inductive exn : Type :=
| ParserException (msg : string)
| bad_cast
| out_of_range (msg : string).

(** A call that returns a value or throws. *)
Inductive result (A : Type) : Type :=
| Ok (a : A)
| Error (e : exn).

Arguments Ok {A} a.
Arguments Error {A} e.

(** A call that works on state passed by reference: it returns leaving the
    state [s], or throws leaving the state [s], or is still running when the
    fuel is used up. *)
Inductive outcome (S : Type) : Type :=
| Normal (s : S)
| Throw (e : exn) (s : S)
| Diverge.

Arguments Normal {S} s.
Arguments Throw {S} e s.
Arguments Diverge {S}.

(** ** Value model *)

(** Modelled from the spec: the enum [DataType] is declared in
    mforms/jsonview.h, which is not among the sources; it has the nine tags
    of the spec, under the names that the source uses. *)
Inductive DataType : Type :=
| VInt | VBoolean | VString | VDouble | VInt64 | VUint64
| VObject | VArray | VEmpty.

Definition DataType_eqb (a b : DataType) : bool :=
  match a, b with
  | VInt, VInt | VBoolean, VBoolean | VString, VString | VDouble, VDouble
  | VInt64, VInt64 | VUint64, VUint64 | VObject, VObject | VArray, VArray
  | VEmpty, VEmpty => true
  | _, _ => false
  end.

#[local] Unset Elimination Schemes.

(** [JsonValue] is the flat struct of the source, with the members that
    its constructors initialize: every payload field is present whatever
    the tag.  The containers are declared in mforms/jsonview.h, which is
    not among the sources; after the spec the [_data] of a [JsonObject] is
    an ordered associative container sorted by key (its entries are listed
    in key order here) and the [_data] of a [JsonArray] is a sequence with
    random access. *)
Inductive JsonValue : Type :=
  mkJsonValue {
    _double : float;
    _integer64 : Z;
    _uint64 : Z;
    _bool : bool;
    _string : string;
    _object : list (string * JsonValue);
    _array : list JsonValue;
    _type : DataType
  }.

#[local] Set Elimination Schemes.

Definition JsonObject : Type := list (string * JsonValue).
Definition JsonArray : Type := list JsonValue.

(** [s.c_str()] as a printf-style format prints it under %s: the
    characters of [s] before its first NUL. *)
Fixpoint c_str (s : string) : string :=
  match s with
  | "" => ""
  | String c s' => if (c =? "000")%char then "" else String c (c_str s')
  end.

(** *** JsonObject: an ordered map from std::string to JsonValue *)

Module JsonObject.

(** Entries are kept in the order of std::less<std::string>, the
    byte-wise lexicographic order: every key is below the keys after
    it. *)
Fixpoint well_formed (o : JsonObject) : bool :=
  match o with
  | [] => true
  | (k, _) :: o' =>
      forallb (fun entry => String.ltb k (fst entry)) o' && well_formed o'
  end.

Definition size (o : JsonObject) : nat := length o.

Definition empty (o : JsonObject) : bool :=
  match o with [] => true | _ => false end.

Fixpoint find (key : string) (o : JsonObject) : option JsonValue :=
  match o with
  | [] => None
  | (k, v) :: o' => if String.eqb key k then Some v else find key o'
  end.

(** [_data[key] = value] *)
Fixpoint insert (key : string) (value : JsonValue) (o : JsonObject)
  : JsonObject :=
  match o with
  | [] => [(key, value)]
  | (k, v) :: o' =>
      match String.compare key k with
      | Lt => (key, value) :: o
      | Eq => (key, value) :: o'
      | Gt => (k, v) :: insert key value o'
      end
  end.

(** [get(key)]: the message of the exception is formatted by
    [base::strfmt] with [key.c_str()] under %s, so it holds the key up to
    its first NUL. *)
Definition get (key : string) (o : JsonObject) : result JsonValue :=
  match find key o with
  | None =>
      Error (out_of_range
               ("no element '" ++ c_str key ++ "' found in caontainer"))
  | Some v => Ok v
  end.

Definition clear (o : JsonObject) : JsonObject := [].

(** [find(key)] as the iterator that it returns: an iterator is the
    position of its entry in key order, and [end()] is [size()]. *)
Fixpoint find_iterator (key : string) (o : JsonObject) : nat :=
  match o with
  | [] => O
  | (k, _) :: o' => if String.eqb key k then O else S (find_iterator key o')
  end.

(** [erase(it)]: [_data.erase(it)] is defined for an iterator to an entry,
    not for [end()]; [None] stands for the undefined call. *)
Definition erase (it : nat) (o : JsonObject) : option JsonObject :=
  if (it <? length o)%nat then Some (firstn it o ++ skipn (S it) o)%list
  else None.

(** [erase(first, last)]: defined for a range of [_data]. *)
Definition erase_range (first last : nat) (o : JsonObject)
  : option JsonObject :=
  if ((first <=? last) && (last <=? length o))%nat
  then Some (firstn first o ++ skipn last o)%list
  else None.

End JsonObject.

(** *** JsonValue: constructors *)

Module JsonValue.

(** [JsonValue()] *)
Definition default : JsonValue :=
  mkJsonValue 0%float 0 0 false "" [] [] VEmpty.

(** [JsonValue(const std::string &val)]: the initializer list names
    neither [_integer64] nor [_uint64]; [i] and [u] stand for whatever
    they hold. *)
Definition of_string (i u : Z) (val : string) : JsonValue :=
  mkJsonValue 0%float i u false val [] [] VString.

(** [JsonValue(const char *val)], [None] for a null pointer. *)
Definition of_cstr (val : option string) : JsonValue :=
  mkJsonValue 0%float 0 0 false
    (match val with Some s => s | None => "" end) [] [] VString.

(** [JsonValue(bool val)] *)
Definition of_bool (val : bool) : JsonValue :=
  mkJsonValue 0%float 0 0 val "" [] [] VBoolean.

(** [JsonValue(int val)]: the initializer list is
    [_double(0), _integer64(0), _uint64(0), _bool(false), _type(VInt)]. *)
Definition of_int (val : Z) : JsonValue :=
  mkJsonValue 0%float 0 0 false "" [] [] VInt.

(** [JsonValue(int64_t val)] *)
Definition of_int64 (val : Z) : JsonValue :=
  mkJsonValue 0%float val 0 false "" [] [] VInt64.

(** [JsonValue(uint64_t val)] *)
Definition of_uint64 (val : Z) : JsonValue :=
  mkJsonValue 0%float 0 val false "" [] [] VUint64.

(** [JsonValue(double val)] *)
Definition of_double (val : float) : JsonValue :=
  mkJsonValue val 0 0 false "" [] [] VDouble.

(** [JsonValue(const JsonObject &val)] *)
Definition of_object (val : JsonObject) : JsonValue :=
  mkJsonValue 0%float 0 0 false "" val [] VObject.

(** [JsonValue(const JsonArray &val)] *)
Definition of_array (val : JsonArray) : JsonValue :=
  mkJsonValue 0%float 0 0 false "" [] val VArray.

End JsonValue.

(** [JsonObject::operator[](name)], that is [_data[name]]: the value under
    [name], which is entered with a [JsonValue()] when it is missing; the
    result is the value referred to and the object after the call. *)
Definition JsonObject_operator_subscript (name : string) (o : JsonObject)
  : JsonValue * JsonObject :=
  match JsonObject.find name o with
  | Some v => (v, o)
  | None => (JsonValue.default, JsonObject.insert name JsonValue.default o)
  end.

(** ** Numbers *)

Definition INT_MIN : Z := -2147483648.
Definition INT_MAX : Z := 2147483647.

(** The double nearest to an integer. *)
Definition double_of_Z (z : Z) : float :=
  SF2Prim (binary_normalize prec emax z 0 false).

(** [static_cast<int>(d)]: the fractional part is discarded.  The cast is
    undefined when the truncated value does not fit an [int] (and for
    infinities and NaN); the model returns what the x86 conversion
    instruction gives there, [INT_MIN]. *)
Definition double_to_int (d : float) : Z :=
  match Prim2SF d with
  | S754_zero _ => 0
  | S754_finite s m e =>
      let a := Z.shiftl (Z.pos m) e in
      let z := if s then - a else a in
      if (INT_MIN <=? z) && (z <=? INT_MAX) then z else INT_MIN
  | _ => INT_MIN
  end.

(** [modf(d, &intpart)]: the pair (fractional part, integral part), both
    with the sign of [d]. *)
Definition modf (d : float) : float * float :=
  match Prim2SF d with
  | S754_zero _ => (d, d)
  | S754_infinity s => ((if s then -0 else 0)%float, d)
  | S754_nan => (d, d)
  | S754_finite s m e =>
      if 0 <=? e then ((if s then -0 else 0)%float, d)
      else
        let a := Z.shiftl (Z.pos m) e in
        let ip := double_of_Z (if s then - a else a) in
        let ip := if PrimFloat.eqb ip 0 then (if s then -0 else 0)%float else ip in
        let fp := (d - ip)%float in
        ((if PrimFloat.eqb fp 0 then (if s then -0 else 0)%float else fp), ip)
  end.

(** *** Characters *)

Definition NUL : ascii := "000"%char.

Definition is_digit (c : ascii) : bool :=
  (("0" <=? c) && (c <=? "9"))%char.

Definition digit_value (c : ascii) : Z := Z.of_N (N_of_ascii c) - 48.

Fixpoint all_chars (p : ascii -> bool) (s : string) : bool :=
  match s with
  | "" => true
  | String c s' => p c && all_chars p s'
  end.

(** The longest prefix of [s] made of characters satisfying [p], and the
    rest of [s]. *)
Fixpoint span (p : ascii -> bool) (s : string) : string * string :=
  match s with
  | "" => ("", "")
  | String c s' =>
      if p c then let (a, b) := span p s' in (String c a, b) else ("", s)
  end.

Fixpoint digits_to_Z (acc : Z) (s : string) : Z :=
  match s with
  | "" => acc
  | String c s' => digits_to_Z (10 * acc + digit_value c) s'
  end.

(** *** Text to double: [buffer << text; buffer >> number] *)

Definition DBL_MAX : float := 0x1.fffffffffffffp+1023%float.

(** The double nearest to [num / den] (ties to even), for [0 <= num] and
    [0 < den], negated when [neg]: the quotient is taken with 56 bits or more
    and a sticky last bit, then rounded once. *)
Definition double_of_ratio (neg : bool) (num den : Z) : float :=
  let s := Z.max 0 (57 + Z.log2 den - Z.log2 num) in
  let q := Z.shiftl num s / den in
  let r := Z.shiftl num s mod den in
  let m := 2 * q + (if r =? 0 then 0 else 1) in
  SF2Prim (binary_normalize prec emax (if neg then - m else m) (- s - 1) neg).

(** The value [m * 10^e] of a decimal literal. *)
Definition double_of_decimal (neg : bool) (m e : Z) : float :=
  if 0 <=? e then double_of_ratio neg (m * 10 ^ e) 1
  else double_of_ratio neg m (10 ^ (- e)).

Definition is_sign (c : ascii) : bool := ((c =? "+") || (c =? "-"))%char.

Definition take_sign (s : string) : bool * string :=
  match s with
  | String c s' => if is_sign c then ((c =? "-")%char, s') else (false, s)
  | "" => (false, s)
  end.

(** The extraction of a double from a stream holding [text], as the C++
    standard library does it: the characters that continue a decimal
    floating literal (sign, digits, one point, one exponent with its sign)
    are collected and converted; when what was collected is not a complete
    literal the result is 0, and a value too large becomes [DBL_MAX]. *)
Definition stream_to_double (text : string) : float :=
  let (neg, s1) := take_sign text in
  let (ip, s2) := span is_digit s1 in
  let (fp, s3) :=
    match s2 with
    | String "." s' => span is_digit s'
    | _ => ("", s2)
    end in
  let mant := ip ++ fp in
  match mant with
  | "" => 0%float
  | _ =>
      let m := digits_to_Z 0 mant in
      let k := Z.of_nat (String.length fp) in
      let v :=
        match s3 with
        | String c s4 =>
            if ((c =? "e") || (c =? "E"))%char then
              let (eneg, s5) := take_sign s4 in
              let (ep, _) := span is_digit s5 in
              match ep with
              | "" => None
              | _ =>
                  let e := digits_to_Z 0 ep in
                  Some (double_of_decimal neg m ((if eneg then - e else e) - k))
              end
            else Some (double_of_decimal neg m (- k))
        | "" => Some (double_of_decimal neg m (- k))
        end in
      match v with
      | None => 0%float
      | Some d =>
          if PrimFloat.eqb d infinity then DBL_MAX
          else if PrimFloat.eqb d neg_infinity then (- DBL_MAX)%float
          else d
      end
  end.

(** *** Numbers to text: [base::to_string] *)

(** Modelled from the spec: [base::to_string] is declared in
    base/string_utilities.h, which is not among the sources; a number is
    rendered as its natural decimal text.  For the integer widths this is
    the decimal numeral, with a leading minus sign when negative. *)
Definition to_string_Z (z : Z) : string :=
  NilZero.string_of_int (Z.to_int z).

Definition to_string_int (z : Z) : string := to_string_Z z.
Definition to_string_int64 (z : Z) : string := to_string_Z z.
Definition to_string_uint64 (z : Z) : string := to_string_Z z.

Fixpoint strip_zeros (s : string) : string :=
  match s with
  | "" => ""
  | String c s' =>
      let r := strip_zeros s' in
      match r with
      | "" => if (c =? "0")%char then "" else String c ""
      | _ => String c r
      end
  end.

Fixpoint zeros (n : nat) : string :=
  match n with O => "" | S n' => String "0" (zeros n') end.

(** [num / den >= 10^x], for positive [num] and [den]. *)
Definition ge_pow10 (num den x : Z) : bool :=
  if 0 <=? x then den * 10 ^ x <=? num else den <=? num * 10 ^ (- x).

(** The decimal exponent [x] of [num / den]: [10^x <= num / den < 10^(x+1)]. *)
Fixpoint exponent10_from (fuel : nat) (num den x : Z) : Z :=
  match fuel with
  | O => x
  | S fuel' =>
      if ge_pow10 num den (x + 1) then exponent10_from fuel' num den (x + 1)
      else x
  end.

Definition exponent10 (num den : Z) : Z :=
  exponent10_from 4 num den
    ((Z.log2 num - Z.log2 den - 1) * 30103 / 100000 - 1).

(** [num / den] rounded to the nearest integer, ties to even. *)
Definition round_ratio (num den : Z) : Z :=
  let q := num / den in
  let r := num mod den in
  if (den <? 2 * r) || ((den =? 2 * r) && Z.odd q) then q + 1 else q.

(** The text of the positive number [num / den] with six significant
    digits: fixed notation when the decimal exponent is between -4 and 5,
    scientific otherwise, and no trailing zeros. *)
Definition format_general (num den : Z) : string :=
  let x := exponent10 num den in
  let d := if 0 <=? 5 - x then round_ratio (num * 10 ^ (5 - x)) den
           else round_ratio num (den * 10 ^ (x - 5)) in
  let (d, x) := if d =? 1000000 then (100000, x + 1) else (d, x) in
  let ds := to_string_Z d in
  if (x <? -4) || (6 <=? x) then
    let frac := strip_zeros (substring 1 5 ds) in
    let ex := to_string_Z (Z.abs x) in
    substring 0 1 ds
      ++ (match frac with "" => "" | _ => "." ++ frac end)
      ++ "e" ++ (if x <? 0 then "-" else "+")
      ++ (if Z.abs x <? 10 then "0" else "") ++ ex
  else if 0 <=? x then
    let n := Z.to_nat (x + 1) in
    let frac := strip_zeros (substring n (6 - n) ds) in
    substring 0 n ds ++ (match frac with "" => "" | _ => "." ++ frac end)
  else
    "0." ++ zeros (Z.to_nat (- x - 1)) ++ strip_zeros ds.

(** Modelled from the spec: [base::to_string] for a double, absent from the
    sources like the integer ones; the natural decimal text of a double is
    taken to be what a C++ output stream writes for it (six significant
    digits, no trailing zeros). *)
Definition to_string_double (d : float) : string :=
  match Prim2SF d with
  | S754_zero s => if s then "-0" else "0"
  | S754_infinity s => if s then "-inf" else "inf"
  | S754_nan => "nan"
  | S754_finite s m e =>
      (if s then "-" else "")
        ++ format_general (Z.pos m * 2 ^ Z.max e 0) (2 ^ Z.max (- e) 0)
  end.

(** ** Accessors of JsonValue *)

Definition getType (v : JsonValue) : DataType := _type v.
Definition getDouble (v : JsonValue) : float := _double v.
Definition getInt (v : JsonValue) : Z := double_to_int (_double v).
Definition getInt64 (v : JsonValue) : Z := _integer64 v.
Definition getUint64 (v : JsonValue) : Z := _uint64 v.
Definition getBool (v : JsonValue) : bool := _bool v.
Definition getString (v : JsonValue) : string := _string v.
Definition getObject (v : JsonValue) : JsonObject := _object v.
Definition getArray (v : JsonValue) : JsonArray := _array v.

Definition setNumber (val : float) (v : JsonValue) : JsonValue :=
  mkJsonValue val (_integer64 v) (_uint64 v) (_bool v) (_string v)
              (_object v) (_array v) (_type v).

Definition setInt64 (val : Z) (v : JsonValue) : JsonValue :=
  mkJsonValue (_double v) val (_uint64 v) (_bool v) (_string v)
              (_object v) (_array v) (_type v).

Definition setUint64 (val : Z) (v : JsonValue) : JsonValue :=
  mkJsonValue (_double v) (_integer64 v) val (_bool v) (_string v)
              (_object v) (_array v) (_type v).

Definition setBool (val : bool) (v : JsonValue) : JsonValue :=
  mkJsonValue (_double v) (_integer64 v) (_uint64 v) val (_string v)
              (_object v) (_array v) (_type v).

Definition setString (val : string) (v : JsonValue) : JsonValue :=
  mkJsonValue (_double v) (_integer64 v) (_uint64 v) (_bool v) val
              (_object v) (_array v) (_type v).

Definition setObject (val : JsonObject) (v : JsonValue) : JsonValue :=
  mkJsonValue (_double v) (_integer64 v) (_uint64 v) (_bool v) (_string v)
              val (_array v) (_type v).

Definition setArray (val : JsonArray) (v : JsonValue) : JsonValue :=
  mkJsonValue (_double v) (_integer64 v) (_uint64 v) (_bool v) (_string v)
              (_object v) val (_type v).

Definition setType (type : DataType) (v : JsonValue) : JsonValue :=
  mkJsonValue (_double v) (_integer64 v) (_uint64 v) (_bool v) (_string v)
              (_object v) (_array v) type.

(** *** Conversion operators: each throws std::bad_cast on a foreign tag *)

Definition operator_JsonObject (v : JsonValue) : result JsonObject :=
  if negb (DataType_eqb (getType v) VObject) then Error bad_cast
  else Ok (getObject v).

Definition operator_JsonArray (v : JsonValue) : result JsonArray :=
  if negb (DataType_eqb (getType v) VArray) then Error bad_cast
  else Ok (getArray v).

Definition operator_int (v : JsonValue) : result Z :=
  if negb (DataType_eqb (getType v) VInt) then Error bad_cast
  else Ok (getInt v).

Definition operator_double (v : JsonValue) : result float :=
  if negb (DataType_eqb (getType v) VDouble) then Error bad_cast
  else Ok (getDouble v).

Definition operator_int64_t (v : JsonValue) : result Z :=
  if negb (DataType_eqb (getType v) VInt64) then Error bad_cast
  else Ok (getInt64 v).

Definition operator_uint64_t (v : JsonValue) : result Z :=
  if negb (DataType_eqb (getType v) VUint64) then Error bad_cast
  else Ok (getUint64 v).

Definition operator_bool (v : JsonValue) : result bool :=
  if negb (DataType_eqb (getType v) VBoolean) then Error bad_cast
  else Ok (getBool v).

Definition operator_string (v : JsonValue) : result string :=
  if negb (DataType_eqb (getType v) VString) then Error bad_cast
  else Ok (getString v).

(** *** JsonArray: a vector of JsonValue *)

Module JsonArray.

Definition size (a : JsonArray) : nat := length a.

Definition empty (a : JsonArray) : bool :=
  match a with [] => true | _ => false end.

Definition pushBack (value : JsonValue) (a : JsonArray) : JsonArray :=
  (a ++ [value])%list.

(** The test [pos > _data.size()] that [at] makes itself. *)
Definition bound_check_rejects (a : JsonArray) (pos : nat) : bool :=
  (length a <? pos)%nat.

(** [_data.at(pos)] of the standard sequence containers: throws
    std::out_of_range unless [pos < size()]. *)
Definition vector_at (a : JsonArray) (pos : nat) : result JsonValue :=
  match nth_error a pos with
  | Some v => Ok v
  | None => Error (out_of_range "vector::_M_range_check")
  end.

(** [JsonArray::at(pos)] *)
Definition at_ (a : JsonArray) (pos : nat) : result JsonValue :=
  if bound_check_rejects a pos then
    Error (out_of_range
             ("Index '" ++ NilZero.string_of_uint (Nat.to_uint pos)
                        ++ "' is out of range."))
  else vector_at a pos.

Definition clear (a : JsonArray) : JsonArray := [].

(** [operator[](pos)]: [assert(pos < _data.size())], then [_data[pos]];
    [None] stands for the failed assertion. *)
Definition operator_subscript (a : JsonArray) (pos : nat)
  : option JsonValue :=
  nth_error a pos.

(** The three functions below take iterators, which are positions in the
    sequence ([end()] is [size()]), and return the array after the call
    with the iterator that the call returns; [None] stands for a call that
    std::vector leaves undefined. *)
Definition erase (pos : nat) (a : JsonArray) : option (JsonArray * nat) :=
  if (pos <? length a)%nat
  then Some ((firstn pos a ++ skipn (S pos) a)%list, pos)
  else None.

Definition erase_range (first last : nat) (a : JsonArray)
  : option (JsonArray * nat) :=
  if ((first <=? last) && (last <=? length a))%nat
  then Some ((firstn first a ++ skipn last a)%list, first)
  else None.

Definition insert (pos : nat) (value : JsonValue) (a : JsonArray)
  : option (JsonArray * nat) :=
  if (pos <=? length a)%nat
  then Some ((firstn pos a ++ value :: skipn pos a)%list, pos)
  else None.

End JsonArray.

(** ** Tokens *)

(** Modelled from the spec: the class [JsonToken] and its enum of token
    types are declared in mforms/jsonview.h, which is not among the
    sources; a token is a type and a raw text, read in the source through
    [getType()] and [getValue()]. *)
Inductive JsonTokenType : Type :=
| JsonTokenString | JsonTokenNumber | JsonTokenBoolean | JsonTokenEmpty
| JsonTokenObjectStart | JsonTokenObjectEnd
| JsonTokenArrayStart | JsonTokenArrayEnd
| JsonTokenNext | JsonTokenAssign.

Definition JsonTokenType_eqb (a b : JsonTokenType) : bool :=
  match a, b with
  | JsonTokenString, JsonTokenString | JsonTokenNumber, JsonTokenNumber
  | JsonTokenBoolean, JsonTokenBoolean | JsonTokenEmpty, JsonTokenEmpty
  | JsonTokenObjectStart, JsonTokenObjectStart
  | JsonTokenObjectEnd, JsonTokenObjectEnd
  | JsonTokenArrayStart, JsonTokenArrayStart
  | JsonTokenArrayEnd, JsonTokenArrayEnd
  | JsonTokenNext, JsonTokenNext | JsonTokenAssign, JsonTokenAssign => true
  | _, _ => false
  end.

Record JsonToken : Type := mkJsonToken {
  token_type : JsonTokenType;
  token_value : string
}.

(** ** JsonReader: the tokenizer *)

Definition dquote : ascii := "034"%char.
Definition backslash : ascii := "\"%char.
Definition BS : ascii := "008"%char.
Definition HT : ascii := "009"%char.
Definition LF : ascii := "010"%char.
Definition VT : ascii := "011"%char.
Definition FF : ascii := "012"%char.
Definition CR : ascii := "013"%char.

(** [s ++ c], the effect of [s += c] and of [s.push_back(c)]. *)
Definition push_back (s : string) (c : ascii) : string := s ++ String c "".

Definition peek (s : string) : ascii :=
  match s with String c _ => c | "" => NUL end.

Definition eos (s : string) : bool :=
  match s with "" => true | _ => false end.

Definition moveAhead (s : string) : string :=
  match s with String _ s' => s' | "" => "" end.

Definition isWhiteSpace (c : ascii) : bool :=
  ((c =? " ") || (c =? HT) || (c =? LF) || (c =? CR))%char.

(** [isspace] of the C locale. *)
Definition isspace (c : ascii) : bool :=
  ((c =? " ") || (c =? HT) || (c =? LF) || (c =? VT) || (c =? FF)
   || (c =? CR))%char.

Fixpoint eatWhitespace (s : string) : string :=
  match s with
  | String c s' => if isWhiteSpace c then eatWhitespace s' else s
  | "" => s
  end.

(** The loop of [match]: the reader stays where the first difference is. *)
Fixpoint match_loop (text s : string) : bool * string :=
  match text with
  | "" => (true, s)
  | String c text' =>
      match s with
      | "" => (false, s)
      | String d s' =>
          if (c =? d)%char then match_loop text' s' else (false, s)
      end
  end.

Definition match_ (text s : string) : bool * string :=
  let (m, s') := match_loop text s in
  (negb (eos text) && m, s').

(** The switch of [getJsonString] on the character after a backslash. *)
Definition escaped (c : ascii) : option ascii :=
  if ((c =? "/") || (c =? dquote) || (c =? backslash))%char then Some c
  else if (c =? "b")%char then Some BS
  else if (c =? "f")%char then Some FF
  else if (c =? "n")%char then Some LF
  else if (c =? "r")%char then Some CR
  else if (c =? "t")%char then Some HT
  else None.

(** The while loop of [getJsonString]; [str] is the local [string]. *)
Fixpoint getJsonString_loop (s : string) (str : string)
  : result (string * string) :=
  match s with
  | "" => Ok (str, s)
  | String currentChar s1 =>
      if (currentChar =? dquote)%char then Ok (str, s)
      else if (currentChar =? backslash)%char then
        match s1 with
        | "" => getJsonString_loop s1 (push_back str currentChar)
        | String c s2 =>
            match escaped c with
            | Some c' => getJsonString_loop s2 (push_back str c')
            | None =>
                Error (ParserException
                         (push_back "Unrecognized escape sequence: \" c))
            end
        end
      else getJsonString_loop s1 (push_back str currentChar)
  end.

Definition getJsonString (s : string) : result (string * string) :=
  match getJsonString_loop (moveAhead s) "" with
  | Error e => Error e
  | Ok (str, s') =>
      let (m, s'') := match_ (String dquote "") s' in
      if m then Ok (str, s'')
      else Error (ParserException (push_back "Expected: " dquote ++ " "))
  end.

(** The for loop of [checkJsonEmpty], [n] iterations left. *)
Fixpoint checkJsonEmpty_loop (n : nat) (s : string) (emptyString : string)
  : string * string :=
  match n with
  | O => (emptyString, s)
  | S n' =>
      match s with
      | "" => (emptyString, s)
      | String ch s' =>
          if isspace ch then (emptyString, s)
          else checkJsonEmpty_loop n' s' (push_back emptyString ch)
      end
  end.

Definition checkJsonEmpty (text : string) (s : string) : result string :=
  let (emptyString, s') := checkJsonEmpty_loop (String.length text) s "" in
  if negb (String.eqb emptyString text) then
    Error (ParserException ("Unexpected token: " ++ emptyString))
  else Ok s'.

(** The for loop of [getJsonBoolean], [n] iterations left. *)
Fixpoint getJsonBoolean_loop (n : nat) (s : string) (boolString : string)
  : string * string :=
  match n with
  | O => (boolString, s)
  | S n' =>
      match s with
      | "" => (boolString, s)
      | String c s' => getJsonBoolean_loop n' s' (push_back boolString c)
      end
  end.

Definition getJsonBoolean (s : string) : result (string * string) :=
  let size := if (peek s =? "f")%char then 5%nat else 4%nat in
  let (boolString, s') := getJsonBoolean_loop size s "" in
  if String.eqb boolString "true" && String.eqb boolString "false" then
    Error (ParserException ("Unexpected token: " ++ boolString))
  else Ok (boolString, s').

Definition numericChars : list ascii :=
  ["0"; "1"; "2"; "3"; "4"; "5"; "6"; "7"; "8"; "9"; "."; "e"; "E"; "-"; "+"
  ]%char.

Definition is_numericChar (c : ascii) : bool :=
  existsb (Ascii.eqb c) numericChars.

Fixpoint getJsonNumber_loop (s : string) (number : string)
  : string * string :=
  match s with
  | "" => (number, s)
  | String c s' =>
      if is_numericChar c then getJsonNumber_loop s' (push_back number c)
      else (number, s)
  end.

Definition getJsonNumber (s : string) : string * string :=
  getJsonNumber_loop s "".

(** One round of the loop of [scan]: the token pushed and the reader after
    it, or the exception thrown. *)
Definition scan_round (s : string) : result (JsonToken * string) :=
  let s := eatWhitespace s in
  let chr := peek s in
  let single type :=
    Ok (mkJsonToken type (String chr ""), moveAhead s) in
  if (chr =? "{")%char then single JsonTokenObjectStart
  else if (chr =? "}")%char then single JsonTokenObjectEnd
  else if (chr =? "[")%char then single JsonTokenArrayStart
  else if (chr =? "]")%char then single JsonTokenArrayEnd
  else if (chr =? ",")%char then single JsonTokenNext
  else if (chr =? ":")%char then single JsonTokenAssign
  else if (chr =? dquote)%char then
    match getJsonString s with
    | Ok (value, s') => Ok (mkJsonToken JsonTokenString value, s')
    | Error e => Error e
    end
  else if ((chr =? "-") || is_digit chr)%char then
    let (value, s') := getJsonNumber s in
    Ok (mkJsonToken JsonTokenNumber value, s')
  else if ((chr =? "t") || (chr =? "f"))%char then
    match getJsonBoolean s with
    | Ok (value, s') => Ok (mkJsonToken JsonTokenBoolean value, s')
    | Error e => Error e
    end
  else if (chr =? "n")%char then
    match checkJsonEmpty "null" s with
    | Ok s' => Ok (mkJsonToken JsonTokenEmpty "", s')
    | Error e => Error e
    end
  else if (chr =? "u")%char then
    match checkJsonEmpty "undefined" s with
    | Ok s' => Ok (mkJsonToken JsonTokenEmpty "", s')
    | Error e => Error e
    end
  else if (chr =? NUL)%char then Ok (mkJsonToken JsonTokenEmpty "", s)
  else
    Error (ParserException (push_back "Unexpected start sequence: " chr)).

(** The loop of [scan]; the state is [_tokens]. *)
Fixpoint scan_loop (fuel : nat) (s : string) (tokens : list JsonToken)
  : outcome (list JsonToken) :=
  if eos s then Normal tokens
  else
    match fuel with
    | O => Diverge
    | S fuel' =>
        match scan_round s with
        | Error e => Throw e tokens
        | Ok (token, s') => scan_loop fuel' s' (tokens ++ [token])
        end
    end.

(** [scan]: a round that does not fail reads at least one character or
    leaves the reader on a NUL character for ever, so the length of the text
    is fuel enough for every scan that ends. *)
Definition scan (text : string) : outcome (list JsonToken) :=
  scan_loop (String.length text) text [].

(** ** JsonReader: the parser *)

(** The state of a parsing function: the object it fills through a
    reference, and the token cursor. *)
Definition parser_state (A : Type) : Type := (A * list JsonToken)%type.

Definition processToken (type : JsonTokenType) (skip mustMatch : bool)
  (ts : list JsonToken) : result (bool * list JsonToken) :=
  let ret :=
    match ts with
    | t :: _ => JsonTokenType_eqb (token_type t) type
    | [] => false
    end in
  if negb ret && mustMatch then
    Error (ParserException
             match ts with
             | t :: _ => "Unexpected token: " ++ token_value t
             | [] => "Not compleated json data"
             end)
  else if skip && ret then
    let ts' := tl ts in
    Ok (negb (match ts' with [] => true | _ => false end), ts')
  else Ok (ret, ts).

(** [_tokenIterator->getType() != type], read only where the cursor is not
    at the end. *)
Definition current_type_differs (type : JsonTokenType)
  (ts : list JsonToken) : bool :=
  match ts with
  | t :: _ => negb (JsonTokenType_eqb (token_type t) type)
  | [] => false
  end.

(** The four functions below are called with the cursor on the token
    that they read. *)
Definition parseNumber (value : JsonValue) (ts : list JsonToken)
  : parser_state JsonValue :=
  let number :=
    stream_to_double (match ts with t :: _ => token_value t | [] => "" end) in
  let value :=
    if PrimFloat.eqb (fst (modf number)) 0 then setType VInt value
    else setType VDouble value in
  (setNumber number value, tl ts).

Definition parseBoolean (value : JsonValue) (ts : list JsonToken)
  : parser_state JsonValue :=
  let isBool :=
    String.eqb (match ts with t :: _ => token_value t | [] => "" end) "true" in
  (setType VBoolean (setBool isBool value), tl ts).

Definition parseString (value : JsonValue) (ts : list JsonToken)
  : parser_state JsonValue :=
  (setType VString
     (setString (match ts with t :: _ => token_value t | [] => "" end) value),
   tl ts).

Definition parseEmpty (value : JsonValue) (ts : list JsonToken)
  : parser_state JsonValue :=
  (setType VEmpty value, tl ts).

(** [parse_value] is [parse(JsonValue &)], [parse_object] is
    [parse(JsonObject &)], [parseObject] and [parseArray] are themselves;
    [parse_object_loop] and [parseArray_loop] are the while loops of
    [parse(JsonObject &)] and of [parseArray], entered when [go] holds.
    Every call takes one unit of fuel. *)
Fixpoint parse_value (fuel : nat) (value : JsonValue) (ts : list JsonToken)
  {struct fuel} : outcome (parser_state JsonValue) :=
  match fuel with
  | O => Diverge
  | S fuel' =>
      match ts with
      | [] => Throw (ParserException "Unexpected json data end.") (value, ts)
      | t :: _ =>
          match token_type t with
          | JsonTokenString => Normal (parseString value ts)
          | JsonTokenNumber => Normal (parseNumber value ts)
          | JsonTokenBoolean => Normal (parseBoolean value ts)
          | JsonTokenEmpty => Normal (parseEmpty value ts)
          | JsonTokenObjectStart => parseObject fuel' value ts
          | JsonTokenArrayStart => parseArray fuel' value ts
          | _ =>
              Throw (ParserException ("Unexpected token: " ++ token_value t))
                    (value, ts)
          end
      end
  end

with parseObject (fuel : nat) (value : JsonValue) (ts : list JsonToken)
  {struct fuel} : outcome (parser_state JsonValue) :=
  match fuel with
  | O => Diverge
  | S fuel' =>
      let value := setType VObject value in
      match parse_object fuel' (getObject value) ts with
      | Normal (object, ts') => Normal (setObject object value, ts')
      | Throw e (object, ts') => Throw e (setObject object value, ts')
      | Diverge => Diverge
      end
  end

with parse_object (fuel : nat) (obj : JsonObject) (ts : list JsonToken)
  {struct fuel} : outcome (parser_state JsonObject) :=
  match fuel with
  | O => Diverge
  | S fuel' =>
      match processToken JsonTokenObjectStart true true ts with
      | Error e => Throw e (obj, ts)
      | Ok (more, ts1) =>
          let go := more && current_type_differs JsonTokenObjectStart ts1 in
          match
            (if go then parse_object_loop fuel' obj ts1 else Normal (obj, ts1))
          with
          | Normal (obj', ts2) =>
              match processToken JsonTokenObjectEnd true true ts2 with
              | Error e => Throw e (obj', ts2)
              | Ok (_, ts3) => Normal (obj', ts3)
              end
          | other => other
          end
      end
  end

with parse_object_loop (fuel : nat) (obj : JsonObject) (ts : list JsonToken)
  {struct fuel} : outcome (parser_state JsonObject) :=
  match fuel with
  | O => Diverge
  | S fuel' =>
      (* the member name *)
      match processToken JsonTokenString false true ts with
      | Error e => Throw e (obj, ts)
      | Ok _ =>
          let name := match ts with t :: _ => token_value t | [] => "" end in
          let ts1 := tl ts in
          (* assign separator *)
          match processToken JsonTokenAssign true true ts1 with
          | Error e => Throw e (obj, ts1)
          | Ok (_, ts2) =>
              (* json value *)
              match parse_value fuel' JsonValue.default ts2 with
              | Diverge => Diverge
              | Throw e (_, ts3) => Throw e (obj, ts3)
              | Normal (value, ts3) =>
                  match JsonObject.find name obj with
                  | Some _ =>
                      Throw (ParserException ("Duplicate member: " ++ name))
                            (obj, ts3)
                  | None =>
                      let obj' := JsonObject.insert name value obj in
                      match processToken JsonTokenNext true false ts3 with
                      | Error e => Throw e (obj', ts3)
                      | Ok (go, ts4) =>
                          if go then parse_object_loop fuel' obj' ts4
                          else Normal (obj', ts4)
                      end
                  end
              end
          end
      end
  end

with parseArray (fuel : nat) (value : JsonValue) (ts : list JsonToken)
  {struct fuel} : outcome (parser_state JsonValue) :=
  match fuel with
  | O => Diverge
  | S fuel' =>
      let value := setType VArray value in
      match processToken JsonTokenArrayStart true true ts with
      | Error e => Throw e (value, ts)
      | Ok (more, ts1) =>
          let go := more && current_type_differs JsonTokenArrayStart ts1 in
          match
            (if go then parseArray_loop fuel' (getArray value) ts1
             else Normal (getArray value, ts1))
          with
          | Normal (array, ts2) =>
              match processToken JsonTokenArrayEnd true true ts2 with
              | Error e => Throw e (setArray array value, ts2)
              | Ok (_, ts3) => Normal (setArray array value, ts3)
              end
          | Throw e (array, ts2) => Throw e (setArray array value, ts2)
          | Diverge => Diverge
          end
      end
  end

with parseArray_loop (fuel : nat) (array : JsonArray) (ts : list JsonToken)
  {struct fuel} : outcome (parser_state JsonArray) :=
  match fuel with
  | O => Diverge
  | S fuel' =>
      match parse_value fuel' JsonValue.default ts with
      | Diverge => Diverge
      | Throw e (_, ts1) => Throw e (array, ts1)
      | Normal (value, ts1) =>
          let array' := JsonArray.pushBack value array in
          match processToken JsonTokenNext true false ts1 with
          | Error e => Throw e (array', ts1)
          | Ok (go, ts2) =>
              if go then parseArray_loop fuel' array' ts2
              else Normal (array', ts2)
          end
      end
  end.

(** Three calls at most are made between two tokens, so this fuel lets
    every parse come to its end. *)
Definition parse_fuel (ts : list JsonToken) : nat := 3 * length ts + 3.

(** [JsonReader::parse(value)] on the scanned tokens. *)
Definition parse (value : JsonValue) (ts : list JsonToken)
  : outcome (parser_state JsonValue) :=
  parse_value (parse_fuel ts) value ts.

(** [JsonReader::read(text, value)]; the state is [value]. *)
Definition read (text : string) (value : JsonValue) : outcome JsonValue :=
  match scan text with
  | Diverge => Diverge
  | Throw e _ => Throw e value
  | Normal tokens =>
      match parse value tokens with
      | Normal (value', _) => Normal value'
      | Throw e (value', _) => Throw e value'
      | Diverge => Diverge
      end
  end.

(** ** JsonWriter *)

Definition hex_digit (n : N) : ascii :=
  if (n <? 10)%N then ascii_of_N (48 + n) else ascii_of_N (87 + n).

(** Modelled from the spec: [base::escape_json_string] is declared in
    base/string_utilities.h, which is not among the sources.  A string is
    written with all JSON-significant characters escaped (quote,
    backslash, control characters) per the standard JSON rules: the
    two-character escapes where JSON has one, \u00XX for the other control
    characters. *)
Definition escape_char (c : ascii) : string :=
  if (c =? dquote)%char then String backslash (String dquote "")
  else if (c =? backslash)%char then String backslash (String backslash "")
  else if (c =? BS)%char then "\b"
  else if (c =? FF)%char then "\f"
  else if (c =? LF)%char then "\n"
  else if (c =? CR)%char then "\r"
  else if (c =? HT)%char then "\t"
  else if (N_of_ascii c <? 32)%N then
    "\u00" ++ String (hex_digit (N_of_ascii c / 16))
                 (String (hex_digit (N_of_ascii c mod 16)) "")
  else String c "".

Fixpoint escape_json_string (s : string) : string :=
  match s with
  | "" => ""
  | String c s' => escape_char c ++ escape_json_string s'
  end.

Record JsonWriter : Type := mkJsonWriter {
  _output : string;
  _depth : nat
}.

(** [_output += text] *)
Definition output (text : string) (w : JsonWriter) : JsonWriter :=
  mkJsonWriter (_output w ++ text) (_depth w).

Definition set_depth (d : nat) (w : JsonWriter) : JsonWriter :=
  mkJsonWriter (_output w) d.

(** [std::string(n, '\t')] *)
Fixpoint tabs (n : nat) : string :=
  match n with O => "" | S n' => String HT (tabs n') end.

(** [write(const std::string &)] *)
Definition write_string (value : string) (w : JsonWriter) : JsonWriter :=
  output (String dquote "")
    (output (escape_json_string value) (output (String dquote "") w)).

(** The for loop that [write(const JsonObject &)] and
    [write(const JsonArray &)] share: the body, a comma unless the iterator
    is at [finalIter] (the last one), a line feed. *)
Fixpoint write_each {A : Type} (body : A -> JsonWriter -> JsonWriter)
  (l : list A) (w : JsonWriter) : JsonWriter :=
  match l with
  | [] => w
  | it :: l' =>
      let w := body it w in
      let w := match l' with [] => w | _ => output "," w end in
      let w := output (String LF "") w in
      write_each body l' w
  end.

(** [write(const JsonValue &)], with [write(const JsonObject &)] and
    [write(const JsonArray &)] inside it. *)
Fixpoint write_value (value : JsonValue) (w : JsonWriter) {struct value}
  : JsonWriter :=
  match value with
  | mkJsonValue number integer64 uint64 boolean str object array type =>
      match type with
      | VInt => output (to_string_int (double_to_int number)) w
      | VBoolean => output (if boolean then "true" else "false") w
      | VString => write_string str w
      | VDouble => output (to_string_double number) w
      | VInt64 => output (to_string_int64 integer64) w
      | VUint64 => output (to_string_uint64 uint64) w
      | VObject =>
          let w := output "{" w in
          let w := set_depth (S (_depth w)) w in
          let w := if negb (JsonObject.empty object)
                   then output (String LF "") w else w in
          let w :=
            write_each
              (fun it w =>
                 let w := output (tabs (_depth w)) w in
                 let w := write_string (fst it) w in
                 let w := output " : " w in
                 write_value (snd it) w)
              object w in
          let w := set_depth (pred (_depth w)) w in
          let w := output (tabs (_depth w)) w in
          output "}" w
      | VArray =>
          let w := output "[" w in
          let w := set_depth (S (_depth w)) w in
          let w := if negb (JsonArray.empty array)
                   then output (String LF "") w else w in
          let w :=
            write_each
              (fun it w =>
                 let w := output (tabs (_depth w)) w in
                 write_value it w)
              array w in
          let w := set_depth (pred (_depth w)) w in
          let w := output (tabs (_depth w)) w in
          output "]" w
      | VEmpty => output "null" w
      end
  end.

(** [JsonWriter::write(text, value)]: the text a fresh writer generates. *)
Definition write (value : JsonValue) : string :=
  _output (write_value value (mkJsonWriter "" 0)).

(** ** JsonTreeView and JsonGridView: the labels of the members *)

(** [textSize << size]: the decimal numeral of [size] is added to what the
    stream holds. *)
Definition stream_size (textSize : string) (size : nat) : string :=
  textSize ++ NilZero.string_of_uint (Nat.to_uint size).

(** One round of the loop of [generateObjectInTree] (the same in
    [JsonTreeView] and in [JsonGridView]) as far as the locals [textSize]
    and [text] go: the stream after the round and the text that the round
    gives to [node2->set_string(0, text)].  The stream is declared before
    the loop. *)
Definition member_text (textSize : string) (it : string * JsonValue)
  : string * string :=
  match getType (snd it) with
  | VArray =>
      let textSize :=
        stream_size textSize (JsonArray.size (getArray (snd it))) in
      (textSize, fst it ++ "[" ++ textSize ++ "]")
  | VObject =>
      let textSize :=
        stream_size textSize (JsonObject.size (getObject (snd it))) in
      (textSize, fst it ++ "{" ++ textSize ++ "}")
  | _ => (textSize, fst it)
  end.

(** The texts that [generateTree(value, node)] passes to
    [node->set_string(0, ...)] on the node that it is given: <<null>> for a
    null ([generateNullInTree]); none for a number, a truth value or a
    string, whose generators write the other columns, and none for an
    array, as [generateArrayInTree] writes to the children that it adds
    (or returns at once under the filter).  For an object the node written
    to is a new child or [node] itself after the parameter [addNew], whose
    default is declared in mforms/jsonview.h, not among the sources:
    [None]. *)
Definition generateTree_texts (value : JsonValue) : option (list string) :=
  match getType value with
  | VEmpty => Some ["<<null>>"]
  | VObject => None
  | _ => Some []
  end.

(** The rounds of the loop: for each member the text of the round's own
    call [node2->set_string(0, text)], and the texts of the calls on the
    same node that [generateTree(it->second, node2)] makes after it. *)
Fixpoint member_texts (textSize : string) (object : JsonObject)
  : list (string * option (list string)) :=
  match object with
  | [] => []
  | it :: object' =>
      let (textSize', text) := member_text textSize it in
      (text, generateTree_texts (snd it)) :: member_texts textSize' object'
  end.

(** [generateObjectInTree(value, node, addNew)], in [JsonTreeView] and in
    [JsonGridView], as far as column 0 of the members' nodes goes: what
    [member_texts] lists for the members of the object of [value], in the
    order of the loop.  [filtered] is the condition of the first line,
    [_useFilter && _filterGuard.count(&value) == 0], under which the
    function returns at once.  The tree nodes themselves belong to mforms,
    which is not among the sources. *)
Definition generateObjectInTree_texts (filtered : bool) (value : JsonValue)
  : list (string * option (list string)) :=
  if filtered then [] else member_texts "" (getObject value).

(** ** Vocabulary of the statements *)

(** What a conversion operator owes for the tag [tag] and the getter
    [get]: it throws std::bad_cast exactly on the other tags, and returns
    what the getter returns on [tag]. *)
Definition checked_cast {A : Type} (op : JsonValue -> result A)
  (tag : DataType) (get : JsonValue -> A) (v : JsonValue) : Prop :=
  (op v = Error bad_cast <-> getType v <> tag) /\
  (getType v = tag -> op v = Ok (get v)).

(** The text [s] between two quote characters. *)
Definition quoted (s : string) : string :=
  String dquote (s ++ String dquote "").

(** The input of the duplicate-key test: an object with the member a
    twice, bound to 1 and then to 2. *)
Definition duplicate_text : string :=
  "{" ++ quoted "a" ++ ":1," ++ quoted "a" ++ ":2}".

(** The text of the escape test: a quoted string holding a, an escaped
    line feed, b, an escaped quote and c. *)
Definition escape_payload : string :=
  String "a" (String LF (String "b" (String dquote "c"))).

Definition escape_text : string :=
  quoted ("a\nb\" ++ String dquote "c").

(** A character that is neither the quote nor the backslash. *)
Definition plain_char (c : ascii) : bool :=
  negb (c =? dquote)%char && negb (c =? backslash)%char.

(** A character that has a two-character escape or needs none: any but
    the control characters without a short escape. *)
Definition short_escape (c : ascii) : bool :=
  (32 <=? N_of_ascii c)%N
  || existsb (Ascii.eqb c) [BS; HT; LF; FF; CR].

(** The characters that JSON does not allow as they are inside a string:
    the quote, the backslash and the control characters. *)
Definition needs_escape (c : ascii) : bool :=
  (c =? dquote)%char || (c =? backslash)%char || (N_of_ascii c <? 32)%N.

(** A character that is not a control character. *)
Definition printable (c : ascii) : bool := (32 <=? N_of_ascii c)%N.

(** The two errors of [getJsonString]. *)
Definition unrecognized_escape (c : ascii) : exn :=
  ParserException (push_back "Unrecognized escape sequence: \" c).

Definition expected_quote : exn :=
  ParserException (push_back "Expected: " dquote ++ " ").

(** The characters that [getJsonString] accepts after a backslash. *)
Definition recognized_escapes : list ascii :=
  ["/"%char; dquote; backslash; "b"%char; "f"%char; "n"%char; "r"%char;
   "t"%char].

(** A value as the parser fills a fresh [JsonValue] for a number. *)
Definition number_value (type : DataType) (number : float) : JsonValue :=
  setNumber number (setType type JsonValue.default).

(** *** The round trip *)

(** A character that is not special in a JSON string: not the quote, not
    the backslash, not a control character. *)
Definition no_special (c : ascii) : bool :=
  plain_char c && (32 <=? N_of_ascii c)%N.

(** The number text [text] is read as a number with the tag [type] that
    equals [d]. *)
Definition reads_back_as (type : DataType) (text : string) (d : float)
  : bool :=
  let r := stream_to_double text in
  DataType_eqb type (if PrimFloat.eqb (fst (modf r)) 0 then VInt else VDouble)
  && PrimFloat.eqb d r.

(** The trees that keep every tag in the round trip: Int, Double, String,
    Boolean and Empty leaves, objects with one member at least (their
    entries in key order, as a map keeps them), arrays with one element at
    least whose first element is not an array; strings and member names
    without special characters; number leaves whose text is read back as
    the same number under the same tag. *)
Fixpoint round_trippable (v : JsonValue) : bool :=
  match v with
  | mkJsonValue number integer64 uint64 boolean str object array type =>
      match type with
      | VInt => reads_back_as VInt (to_string_int (double_to_int number)) number
      | VDouble => reads_back_as VDouble (to_string_double number) number
      | VString => all_chars no_special str
      | VBoolean | VEmpty => true
      | VInt64 | VUint64 => false
      | VObject =>
          negb (JsonObject.empty object) && JsonObject.well_formed object
          && forallb (fun it => all_chars no_special (fst it)
                                && round_trippable (snd it)) object
      | VArray =>
          match array with
          | [] => false
          | first :: _ => negb (DataType_eqb (_type first) VArray)
          end
          && forallb round_trippable array
      end
  end.

(** The trees of the round trip as the reader and the writer allow it:
    as above, with every Int leaf, and with Int64 and Uint64 leaves, which
    the reader gives back as numbers under another tag; the one condition
    on a number is on a Double leaf, whose text has to be read back as the
    same double under the tag Double.  (An Int leaf is written as
    [static_cast<int>] of its number; where that cast is undefined the
    int is the one of [double_to_int].) *)
Fixpoint round_trip_tree (v : JsonValue) : bool :=
  match v with
  | mkJsonValue number integer64 uint64 boolean str object array type =>
      match type with
      | VDouble => reads_back_as VDouble (to_string_double number) number
      | VString => all_chars no_special str
      | VInt | VInt64 | VUint64 | VBoolean | VEmpty => true
      | VObject =>
          negb (JsonObject.empty object) && JsonObject.well_formed object
          && forallb (fun it => all_chars no_special (fst it)
                                && round_trip_tree (snd it)) object
      | VArray =>
          match array with
          | [] => false
          | first :: _ => negb (DataType_eqb (_type first) VArray)
          end
          && forallb round_trip_tree array
      end
  end.




(** The texts of the items of a container, one a line, a comma after each
    but the last. *)
Fixpoint lines {A : Type} (f : A -> string) (l : list A) : string :=
  match l with
  | [] => ""
  | x :: l' =>
      f x ++ (match l' with [] => "" | _ => "," end) ++ String LF ""
        ++ lines f l'
  end.

(** The text that the writer adds for [v] at the depth [depth]. *)
Fixpoint render (depth : nat) (v : JsonValue) {struct v} : string :=
  match v with
  | mkJsonValue number integer64 uint64 boolean str object array type =>
      match type with
      | VInt => to_string_int (double_to_int number)
      | VBoolean => if boolean then "true" else "false"
      | VString => quoted (escape_json_string str)
      | VDouble => to_string_double number
      | VInt64 => to_string_int64 integer64
      | VUint64 => to_string_uint64 uint64
      | VObject =>
          "{" ++ (match object with [] => "" | _ => String LF "" end)
            ++ lines (fun it => tabs (S depth)
                                  ++ quoted (escape_json_string (fst it))
                                  ++ " : " ++ render (S depth) (snd it))
                     object
            ++ tabs depth ++ "}"
      | VArray =>
          "[" ++ (match array with [] => "" | _ => String LF "" end)
            ++ lines (fun it => tabs (S depth) ++ render (S depth) it) array
            ++ tabs depth ++ "]"
      | VEmpty => "null"
      end
  end.

(** The tokens of the items of a container, a Next token between two. *)
Fixpoint separated {A : Type} (f : A -> list JsonToken) (l : list A)
  : list JsonToken :=
  match l with
  | [] => []
  | x :: l' =>
      f x ++ (match l' with [] => [] | _ => [mkJsonToken JsonTokenNext ","] end)
        ++ separated f l'
  end.

(** The tokens of the text written for [v]. *)
Fixpoint tokens_of (v : JsonValue) : list JsonToken :=
  match v with
  | mkJsonValue number integer64 uint64 boolean str object array type =>
      match type with
      | VInt =>
          [mkJsonToken JsonTokenNumber (to_string_int (double_to_int number))]
      | VBoolean =>
          [mkJsonToken JsonTokenBoolean (if boolean then "true" else "false")]
      | VString => [mkJsonToken JsonTokenString str]
      | VDouble => [mkJsonToken JsonTokenNumber (to_string_double number)]
      | VInt64 => [mkJsonToken JsonTokenNumber (to_string_int64 integer64)]
      | VUint64 => [mkJsonToken JsonTokenNumber (to_string_uint64 uint64)]
      | VObject =>
          mkJsonToken JsonTokenObjectStart "{"
            :: separated (fun it => mkJsonToken JsonTokenString (fst it)
                                      :: mkJsonToken JsonTokenAssign ":"
                                      :: tokens_of (snd it)) object
            ++ [mkJsonToken JsonTokenObjectEnd "}"]
      | VArray =>
          mkJsonToken JsonTokenArrayStart "["
            :: separated tokens_of array
            ++ [mkJsonToken JsonTokenArrayEnd "]"]
      | VEmpty => [mkJsonToken JsonTokenEmpty ""]
      end
  end.

(** The value that the parser builds in a fresh [JsonValue] from the
    tokens of [v]. *)
Fixpoint reread (v : JsonValue) : JsonValue :=
  match v with
  | mkJsonValue number integer64 uint64 boolean str object array type =>
      match type with
      | VInt | VDouble | VInt64 | VUint64 =>
          fst (parseNumber JsonValue.default (tokens_of v))
      | VBoolean => JsonValue.of_bool boolean
      | VString => JsonValue.of_string 0 0 str
      | VObject =>
          JsonValue.of_object (map (fun it => (fst it, reread (snd it))) object)
      | VArray => JsonValue.of_array (map reread array)
      | VEmpty => JsonValue.default
      end
  end.

(** The next character of [s], if any, does not continue a number. *)
Definition ends_number (s : string) : bool :=
  match s with "" => true | String c _ => negb (is_numericChar c) end.

(** A text that [scan] takes for one Number token: it starts with the
    minus sign or a digit and is made of numeric characters. *)
Definition number_text (t : string) : bool :=
  match t with
  | "" => false
  | String c _ => ((c =? "-")%char || is_digit c) && all_chars is_numericChar t
  end.

(** The entries of [o] have their keys below [key]. *)
Definition keys_below (key : string) (o : JsonObject) : bool :=
  forallb (fun entry => String.ltb (fst entry) key) o.

(** The tokens of one member of an object: its name, the Assign token,
    the tokens of its value. *)
Definition member_tokens (it : string * JsonValue) : list JsonToken :=
  mkJsonToken JsonTokenString (fst it) :: mkJsonToken JsonTokenAssign ":"
    :: tokens_of (snd it).

(** The text [text], before a text that is not empty, is scanned into the
    tokens [ts], one round each. *)
Definition scans_to (text : string) (ts : list JsonToken) : Prop :=
  forall rest tokens fuel,
    ends_number rest = true -> rest <> "" ->
    scan_loop (length ts + fuel) (text ++ rest) tokens
    = scan_loop fuel rest (tokens ++ ts).

(** What the induction gives for a value: its tokens, before any others,
    are parsed into [reread] of it. *)
Definition parses (v : JsonValue) : Prop :=
  forall fuel rest,
    (3 * length (tokens_of v) <= fuel)%nat ->
    parse_value fuel JsonValue.default (tokens_of v ++ rest)
    = Normal (reread v, rest).

(** A document for the round trip: an object holding a Double, an array
    that starts with a Boolean and an object holding an Int. *)
Definition sample_document : JsonValue :=
  JsonValue.of_object
    [("a", JsonValue.of_double 3.5);
     ("b", JsonValue.of_array
             [JsonValue.of_bool true; JsonValue.default;
              JsonValue.of_string 0 0 "hi"; number_value VInt 7;
              JsonValue.of_array [number_value VDouble (-0.25)]]);
     ("c", JsonValue.of_object [("d", number_value VInt (-2))])].




(** *** Integers as doubles *)



(** The call came to an end and left at most [n] tokens, fewer than [n]
    if it returned and [strict] is set. *)
Definition ends_within {A : Type} (strict : bool) (n : nat)
  (o : outcome (parser_state A)) : Prop :=
  match o with
  | Normal (_, ts) => ((if strict then 1 else 0) + length ts <= n)%nat
  | Throw _ (_, ts) => (length ts <= n)%nat
  | Diverge => False
  end.

(** With the fuel [fuel] each of the six parsing functions comes to an end
    on a token list short enough for it, and leaves no more tokens than it
    was given. *)
Definition parse_ends (fuel : nat) : Prop :=
  (forall value ts, (3 * length ts + 1 <= fuel)%nat ->
     ends_within true (length ts) (parse_value fuel value ts)) /\
  (forall value ts, ts <> [] -> (3 * length ts <= fuel)%nat ->
     ends_within true (length ts) (parseObject fuel value ts)) /\
  (forall obj ts, ts <> [] -> (3 * length ts <= fuel + 1)%nat ->
     ends_within true (length ts) (parse_object fuel obj ts)) /\
  (forall obj ts, (3 * length ts + 1 <= fuel)%nat ->
     ends_within false (length ts) (parse_object_loop fuel obj ts)) /\
  (forall value ts, ts <> [] -> (3 * length ts <= fuel)%nat ->
     ends_within true (length ts) (parseArray fuel value ts)) /\
  (forall array ts, (3 * length ts + 2 <= fuel)%nat ->
     ends_within false (length ts) (parseArray_loop fuel array ts)).

(** *** Reading a text in parts *)

(** The outcome of a scan whose token list starts with [pre]. *)
Definition after_tokens (pre : list JsonToken) (o : outcome (list JsonToken))
  : outcome (list JsonToken) :=
  match o with
  | Normal ts => Normal (pre ++ ts)%list
  | Throw e ts => Throw e (pre ++ ts)%list
  | Diverge => Diverge
  end.

(** What [read] makes of the outcome of [scan]. *)
Definition read_tokens (value : JsonValue) (o : outcome (list JsonToken))
  : outcome JsonValue :=
  match o with
  | Diverge => Diverge
  | Throw e _ => Throw e value
  | Normal tokens =>
      match parse value tokens with
      | Normal (value', _) => Normal value'
      | Throw e (value', _) => Throw e value'
      | Diverge => Diverge
      end
  end.

(** The outcome [o] of a read whose text ends with [rest], unless the scan
    of [rest] fails: that failure comes first and leaves [value], the
    target, as it was. *)
Definition unless_scan_fails (rest : string) (value : JsonValue)
  (o : outcome JsonValue) : outcome JsonValue :=
  match scan rest with
  | Normal _ => o
  | Throw e _ => Throw e value
  | Diverge => Diverge
  end.

(** The characters for which the switch of [scan] has a case, and the
    white space that is skipped before it. *)
Definition starts_token (c : ascii) : bool :=
  isWhiteSpace c
  || existsb (Ascii.eqb c)
       ["{"; "}"; "["; "]"; ","; ":"; dquote; "-"; "t"; "f"; "n"; "u"; NUL]%char
  || is_digit c.

(** The members of [l] entered into [obj] one after another, each as it
    is read back; [None] when a name is met that [obj] holds already. *)
Fixpoint insert_each (l : list (string * JsonValue)) (obj : JsonObject)
  : option JsonObject :=
  match l with
  | [] => Some obj
  | it :: l' =>
      match JsonObject.find (fst it) obj with
      | Some _ => None
      | None =>
          insert_each l' (JsonObject.insert (fst it) (reread (snd it)) obj)
      end
  end.

(** *** The shape of what the reader builds *)

(** A tag that the reader gives. *)
Definition reader_tag (type : DataType) : bool :=
  match type with VInt64 | VUint64 => false | _ => true end.

(** At every node a tag that the reader gives, and the member names of
    every object in key order, each name once. *)
Fixpoint parsed_shape (v : JsonValue) : bool :=
  match v with
  | mkJsonValue number integer64 uint64 boolean str object array type =>
      reader_tag type
      && JsonObject.well_formed object
      && forallb (fun it => parsed_shape (snd it)) object
      && forallb parsed_shape array
  end.

Definition object_shape (o : JsonObject) : bool :=
  JsonObject.well_formed o && forallb (fun it => parsed_shape (snd it)) o.

(** The state that a parsing function leaves, whether it returns or
    throws, satisfies [p]. *)
Definition leaves {A : Type} (p : A -> bool) (o : outcome (parser_state A))
  : Prop :=
  match o with
  | Normal (a, _) | Throw _ (a, _) => p a = true
  | Diverge => True
  end.

Definition parse_keeps_shape (fuel : nat) : Prop :=
  (forall value ts, parsed_shape value = true ->
     leaves parsed_shape (parse_value fuel value ts)) /\
  (forall value ts, parsed_shape value = true ->
     leaves parsed_shape (parseObject fuel value ts)) /\
  (forall obj ts, object_shape obj = true ->
     leaves object_shape (parse_object fuel obj ts)) /\
  (forall obj ts, object_shape obj = true ->
     leaves object_shape (parse_object_loop fuel obj ts)) /\
  (forall value ts, parsed_shape value = true ->
     leaves parsed_shape (parseArray fuel value ts)) /\
  (forall array ts, forallb parsed_shape array = true ->
     leaves (forallb parsed_shape) (parseArray_loop fuel array ts)).

(** *** The labels of the members *)

(** The sizes of the members of [object] that are arrays or objects, as
    decimal numerals one after another. *)
Fixpoint container_sizes (object : JsonObject) : string :=
  match object with
  | [] => ""
  | it :: object' =>
      match getType (snd it) with
      | VArray =>
          NilZero.string_of_uint
            (Nat.to_uint (JsonArray.size (getArray (snd it))))
      | VObject =>
          NilZero.string_of_uint
            (Nat.to_uint (JsonObject.size (getObject (snd it))))
      | _ => ""
      end ++ container_sizes object'
  end.

(** An object with an array of two elements, an object of one member, a
    null and a string. *)
Definition labelled_document : JsonValue :=
  JsonValue.of_object
    [("a", JsonValue.of_array [JsonValue.of_bool true; JsonValue.default]);
     ("b", JsonValue.of_object [("x", JsonValue.default)]);
     ("n", JsonValue.default);
     ("s", JsonValue.of_string 0 0 "text")].

(** * Properties *)

(** ** Value model *)

Lemma DataType_eqb_eq (a b : DataType) : DataType_eqb a b = true <-> a = b.
Proof. destruct a, b; simpl; split; intro H; congruence. Qed.

Lemma DataType_eqb_neq (a b : DataType) : DataType_eqb a b = false <-> a <> b.
Proof. destruct a, b; simpl; split; intro H; congruence. Qed.

Lemma JsonTokenType_eqb_eq (a b : JsonTokenType) :
  JsonTokenType_eqb a b = true <-> a = b.
Proof. destruct a, b; simpl; split; intro H; congruence. Qed.

(** The constructors other than the one from [int] store their argument
    under the matching tag. *)
Lemma typed_constructors_store_argument :
  (forall x, getType (JsonValue.of_bool x) = VBoolean
             /\ getBool (JsonValue.of_bool x) = x) /\
  (forall x, getType (JsonValue.of_int64 x) = VInt64
             /\ getInt64 (JsonValue.of_int64 x) = x) /\
  (forall x, getType (JsonValue.of_uint64 x) = VUint64
             /\ getUint64 (JsonValue.of_uint64 x) = x) /\
  (forall x, getType (JsonValue.of_double x) = VDouble
             /\ getDouble (JsonValue.of_double x) = x) /\
  (forall i u x, getType (JsonValue.of_string i u x) = VString
                 /\ getString (JsonValue.of_string i u x) = x) /\
  (forall x, getType (JsonValue.of_cstr (Some x)) = VString
             /\ getString (JsonValue.of_cstr (Some x)) = x) /\
  (forall x, getType (JsonValue.of_object x) = VObject
             /\ getObject (JsonValue.of_object x) = x) /\
  (forall x, getType (JsonValue.of_array x) = VArray
             /\ getArray (JsonValue.of_array x) = x).
Proof. repeat split. Qed.

(** C6: the specification has every typed constructor store its argument
    under the matching tag, so that the getter of the tag returns it.  The
    constructor from [int] sets the tag [VInt] and drops its argument, so
    [getInt] returns 0 whatever was given, 5 for instance. *)
Theorem JsonValue_of_int_loses_value :
  (forall val, getType (JsonValue.of_int val) = VInt
               /\ getInt (JsonValue.of_int val) = 0) /\
  getInt (JsonValue.of_int 5) = 0.
Proof. split; [intro val; split|]; reflexivity. Qed.

Lemma checked_cast_holds {A : Type} (tag : DataType)
  (get : JsonValue -> A) (op : JsonValue -> result A) (v : JsonValue) :
  op v = (if negb (DataType_eqb (getType v) tag) then Error bad_cast
          else Ok (get v)) ->
  checked_cast op tag get v.
Proof.
  intro Hop. unfold checked_cast. rewrite Hop.
  destruct (DataType_eqb (getType v) tag) eqn:E; simpl.
  - apply DataType_eqb_eq in E. split; [split|]; congruence.
  - apply DataType_eqb_neq in E. split; [split|]; congruence.
Qed.

(** C7: every conversion operator throws std::bad_cast exactly when the
    tag of the value is not the operator's, and returns the stored payload
    otherwise; the typed getters are total and return the stored field
    whatever the tag, [getInt] as the stored number cast to int; the tag
    is the stored [_type]. *)
Theorem conversion_operators_check_tag (v : JsonValue) :
  (checked_cast operator_int VInt getInt v /\
   checked_cast operator_double VDouble getDouble v /\
   checked_cast operator_bool VBoolean getBool v /\
   checked_cast operator_int64_t VInt64 getInt64 v /\
   checked_cast operator_uint64_t VUint64 getUint64 v /\
   checked_cast operator_string VString getString v /\
   checked_cast operator_JsonObject VObject getObject v /\
   checked_cast operator_JsonArray VArray getArray v) /\
  (getInt v = double_to_int (_double v) /\
   getDouble v = _double v /\
   getBool v = _bool v /\
   getInt64 v = _integer64 v /\
   getUint64 v = _uint64 v /\
   getString v = _string v /\
   getObject v = _object v /\
   getArray v = _array v) /\
  getType v = _type v.
Proof.
  split; [|split].
  - repeat split; try (apply checked_cast_holds; reflexivity);
      apply (checked_cast_holds _ _ _ v eq_refl).
  - repeat split.
  - reflexivity.
Qed.

(** ** JsonArray *)

Lemma vector_at_spec (a : JsonArray) (pos : nat) :
  (pos < length a)%nat ->
  exists v, nth_error a pos = Some v /\ JsonArray.vector_at a pos = Ok v.
Proof.
  intro H. unfold JsonArray.vector_at.
  destruct (nth_error a pos) as [v|] eqn:E.
  - exists v. split; reflexivity.
  - apply nth_error_None in E. lia.
Qed.

(** C8: [at] fails with an out-of-range error at every index that is not
    valid, and returns the element at a valid one; its own test rejects
    exactly the indices above the size, so the index equal to the size
    passes that test (and is then refused by the vector). *)
Theorem JsonArray_at_range (a : JsonArray) (pos : nat) :
  ((JsonArray.size a <= pos)%nat <->
   exists msg, JsonArray.at_ a pos = Error (out_of_range msg)) /\
  ((pos < JsonArray.size a)%nat <->
   exists v, nth_error a pos = Some v /\ JsonArray.at_ a pos = Ok v) /\
  (JsonArray.bound_check_rejects a pos = true <->
   (JsonArray.size a < pos)%nat) /\
  JsonArray.bound_check_rejects a (JsonArray.size a) = false.
Proof.
  unfold JsonArray.at_, JsonArray.bound_check_rejects, JsonArray.size.
  assert (Hlt : (length a <? length a)%nat = false)
    by (apply Nat.ltb_ge; lia).
  destruct (length a <? pos)%nat eqn:E.
  - apply Nat.ltb_lt in E.
    repeat split; try (intros; lia); try assumption.
    + intros _. eexists. reflexivity.
    + intros [v [_ Hv]]. discriminate.
  - apply Nat.ltb_ge in E. unfold JsonArray.vector_at.
    destruct (nth_error a pos) as [v|] eqn:En.
    + assert (pos < length a)%nat by (apply nth_error_Some; congruence).
      repeat split; try (intros; lia); try assumption; try discriminate.
      * intros [msg Hm]. discriminate.
      * intros _. exists v. split; reflexivity.
    + apply nth_error_None in En.
      repeat split; try (intros; lia); try assumption; try discriminate.
      * intros _. eexists. reflexivity.
      * intros [v [Hv _]]. discriminate.
Qed.

(** ** Tokenizer and parser on given texts *)

Lemma eatWhitespace_all (s : string) :
  all_chars isWhiteSpace s = true -> eatWhitespace s = "".
Proof.
  induction s as [|c s IH]; simpl; [reflexivity|].
  intro H. apply andb_prop in H as [Hc Hs]. rewrite Hc. auto.
Qed.

Lemma scan_loop_eos (fuel : nat) (tokens : list JsonToken) :
  scan_loop fuel "" tokens = Normal tokens.
Proof. destruct fuel; reflexivity. Qed.

Lemma scan_whitespace (text : string) :
  text <> "" -> all_chars isWhiteSpace text = true ->
  scan text = Normal [mkJsonToken JsonTokenEmpty ""].
Proof.
  intros Hne Hws. unfold scan.
  destruct text as [|c s]; [congruence|].
  cbn [String.length scan_loop eos].
  unfold scan_round. rewrite (eatWhitespace_all _ Hws).
  cbn. apply scan_loop_eos.
Qed.

(** C10: reading the empty text fails with the end-of-data error; reading
    a text that is not empty and holds only white space succeeds with an
    Empty value, because the scan leaves one Empty token with an empty
    text. *)
Theorem read_blank_text (text : string) (value : JsonValue) :
  text <> "" -> all_chars isWhiteSpace text = true ->
  read "" value
    = Throw (ParserException "Unexpected json data end.") value /\
  scan text = Normal [mkJsonToken JsonTokenEmpty ""] /\
  read text value = Normal (setType VEmpty value) /\
  getType (setType VEmpty value) = VEmpty.
Proof.
  intros Hne Hws. split; [reflexivity|].
  pose proof (scan_whitespace text Hne Hws) as Hscan.
  split; [exact Hscan|]. split; [|reflexivity].
  unfold read. rewrite Hscan. reflexivity.
Qed.

Lemma read_blank_text_witness :
  read "" JsonValue.default
    = Throw (ParserException "Unexpected json data end.") JsonValue.default /\
  scan (String " " (String LF (String HT " ")))
    = Normal [mkJsonToken JsonTokenEmpty ""] /\
  read (String " " (String LF (String HT " "))) JsonValue.default
    = Normal (setType VEmpty JsonValue.default) /\
  getType (setType VEmpty JsonValue.default) = VEmpty.
Proof.
  apply (read_blank_text (String " " (String LF (String HT " ")))
           JsonValue.default).
  - discriminate.
  - reflexivity.
Defined.

(** The test of [getJsonBoolean] asks the text to equal both literals at
    once, so it never throws. *)
Lemma getJsonBoolean_never_fails (s : string) :
  getJsonBoolean s
  = Ok (getJsonBoolean_loop (if (peek s =? "f")%char then 5 else 4)%nat s "").
Proof.
  unfold getJsonBoolean.
  destruct (getJsonBoolean_loop _ s "") as [boolString s'].
  destruct (String.eqb boolString "true") eqn:Et; [|reflexivity].
  apply String.eqb_eq in Et. subst. reflexivity.
Qed.

(** C3: the specification has the scan of a boolean token fail when the
    text is not one of the two literals.  The scan of a boolean token
    never fails; the text tru is read as the Boolean false. *)
Theorem read_tru_is_accepted :
  (forall s, exists boolString s', getJsonBoolean s = Ok (boolString, s')) /\
  scan "tru" = Normal [mkJsonToken JsonTokenBoolean "tru"] /\
  read "tru" JsonValue.default = Normal (JsonValue.of_bool false).
Proof.
  split; [|split; reflexivity].
  intro s. rewrite getJsonBoolean_never_fails.
  destruct (getJsonBoolean_loop _ s "") as [b s']. eauto.
Qed.

(** C1: the specification has the texts of the empty object and of the
    empty array read as containers of size 0.  After the opening token
    the loop is entered unless the next token is again an opening one, so
    the closing token is taken for a member name or an element and the
    read fails; the writer does give those two texts for the empty
    containers. *)
Theorem read_empty_containers_fails :
  scan "{}" = Normal [mkJsonToken JsonTokenObjectStart "{";
                      mkJsonToken JsonTokenObjectEnd "}"] /\
  read "{}" JsonValue.default
    = Throw (ParserException "Unexpected token: }")
            (setType VObject JsonValue.default) /\
  scan "[]" = Normal [mkJsonToken JsonTokenArrayStart "[";
                      mkJsonToken JsonTokenArrayEnd "]"] /\
  read "[]" JsonValue.default
    = Throw (ParserException "Unexpected token: ]")
            (setType VArray JsonValue.default) /\
  write (JsonValue.of_object []) = "{}" /\
  write (JsonValue.of_array []) = "[]".
Proof. repeat split. Qed.

(** C4 as the specification states it fails on the text 3.0: the value
    read has the tag Int, not Double. *)
Lemma read_3_0_is_not_Double :
  exists v, read "3.0" JsonValue.default = Normal v /\
            DataType_eqb (getType v) VInt = true /\
            DataType_eqb (getType v) VDouble = false.
Proof. eexists. split; [reflexivity|]. split; reflexivity. Qed.

(** C4, amended: the text 3 is read as Int 3, the text 3.0 as Int with the
    payload 3.0 (its fractional part is zero), the text 3.5 as Double 3.5;
    whatever the token, the tag is Int when [modf] gives a zero fractional
    part and Double otherwise. *)
Theorem read_number_tags :
  read "3" JsonValue.default = Normal (number_value VInt 3) /\
  read "3.0" JsonValue.default = Normal (number_value VInt 3.0) /\
  read "3.5" JsonValue.default = Normal (number_value VDouble 3.5) /\
  (forall value token ts,
     let number := stream_to_double (token_value token) in
     parseNumber value (token :: ts)
     = (setNumber number
          (setType (if PrimFloat.eqb (fst (modf number)) 0 then VInt
                    else VDouble) value), ts)).
Proof.
  repeat split.
  intros value token ts. unfold parseNumber. cbn [tl].
  destruct (PrimFloat.eqb _ 0); reflexivity.
Qed.

(** C5: when the loop of the object production has read a member whose
    name the object being built already holds, it throws the
    duplicate-member error and leaves the object as it was, so the earlier
    value stays; the text with the member a twice fails this way, the
    object still binding a to 1. *)
Theorem duplicate_member_rejected (fuel : nat) (obj : JsonObject)
  (name : string) (earlier value : JsonValue) (rest ts : list JsonToken) :
  JsonObject.find name obj = Some earlier ->
  parse_value fuel JsonValue.default rest = Normal (value, ts) ->
  parse_object_loop (S fuel) obj
    (mkJsonToken JsonTokenString name :: mkJsonToken JsonTokenAssign ":"
       :: rest)
  = Throw (ParserException ("Duplicate member: " ++ name)) (obj, ts) /\
  read duplicate_text JsonValue.default
  = Throw (ParserException "Duplicate member: a")
          (JsonValue.of_object [("a", number_value VInt 1)]).
Proof.
  intros Hfind Hvalue. split; [|reflexivity].
  cbn [parse_object_loop processToken token_type JsonTokenType_eqb negb
         andb tl token_value].
  rewrite Hvalue, Hfind. reflexivity.
Qed.

Lemma duplicate_member_rejected_witness :
  parse_object_loop 2 [("a", number_value VInt 1)]
    [mkJsonToken JsonTokenString "a"; mkJsonToken JsonTokenAssign ":";
     mkJsonToken JsonTokenNumber "2"; mkJsonToken JsonTokenObjectEnd "}"]
  = Throw (ParserException "Duplicate member: a")
          ([("a", number_value VInt 1)],
           [mkJsonToken JsonTokenObjectEnd "}"]) /\
  read duplicate_text JsonValue.default
  = Throw (ParserException "Duplicate member: a")
          (JsonValue.of_object [("a", number_value VInt 1)]).
Proof.
  apply (duplicate_member_rejected 1 [("a", number_value VInt 1)] "a"
           (number_value VInt 1) (number_value VInt 2)
           [mkJsonToken JsonTokenNumber "2"; mkJsonToken JsonTokenObjectEnd "}"]
           [mkJsonToken JsonTokenObjectEnd "}"]);
    reflexivity.
Defined.

(** ** Strings *)

Lemma append_nil_r (s : string) : s ++ "" = s.
Proof. induction s; simpl; congruence. Qed.

Lemma append_assoc (a b c : string) : (a ++ b) ++ c = a ++ (b ++ c).
Proof. induction a; simpl; congruence. Qed.

Lemma push_back_append (a : string) (c : ascii) (b : string) :
  push_back a c ++ b = a ++ String c b.
Proof. unfold push_back. rewrite append_assoc. reflexivity. Qed.

(** The loop of [getJsonString] over plain characters keeps them all. *)
Lemma getJsonString_loop_plain (t rest str : string) :
  all_chars plain_char t = true ->
  getJsonString_loop (t ++ rest) str = getJsonString_loop rest (str ++ t).
Proof.
  revert str. induction t as [|c t IH]; intros str H; simpl.
  - rewrite append_nil_r. reflexivity.
  - simpl in H. apply andb_prop in H as [Hc Ht].
    unfold plain_char in Hc. apply andb_prop in Hc as [Hq Hb].
    apply negb_true_iff in Hq, Hb. rewrite Hq, Hb.
    rewrite (IH _ Ht), push_back_append. reflexivity.
Qed.

(** One escaped character is read back as the character itself. *)
Lemma getJsonString_loop_escape_char (c : ascii) (rest str : string) :
  short_escape c = true ->
  getJsonString_loop (escape_char c ++ rest) str
  = getJsonString_loop rest (push_back str c).
Proof.
  intro H. unfold escape_char.
  destruct (c =? dquote)%char eqn:E1;
    [apply Ascii.eqb_eq in E1; subst; reflexivity|].
  destruct (c =? backslash)%char eqn:E2;
    [apply Ascii.eqb_eq in E2; subst; reflexivity|].
  destruct (c =? BS)%char eqn:E3;
    [apply Ascii.eqb_eq in E3; subst; reflexivity|].
  destruct (c =? FF)%char eqn:E4;
    [apply Ascii.eqb_eq in E4; subst; reflexivity|].
  destruct (c =? LF)%char eqn:E5;
    [apply Ascii.eqb_eq in E5; subst; reflexivity|].
  destruct (c =? CR)%char eqn:E6;
    [apply Ascii.eqb_eq in E6; subst; reflexivity|].
  destruct (c =? HT)%char eqn:E7;
    [apply Ascii.eqb_eq in E7; subst; reflexivity|].
  unfold short_escape in H. simpl in H.
  rewrite E3, E4, E5, E6, E7 in H. simpl in H.
  rewrite orb_false_r in H. apply N.leb_le in H.
  destruct (N_of_ascii c <? 32)%N eqn:E8; [apply N.ltb_lt in E8; lia|].
  simpl. rewrite E1, E2. reflexivity.
Qed.

Lemma getJsonString_loop_escaped (s rest str : string) :
  all_chars short_escape s = true ->
  getJsonString_loop (escape_json_string s ++ String dquote rest) str
  = Ok (str ++ s, String dquote rest).
Proof.
  revert str. induction s as [|c s IH]; intros str H; simpl.
  - rewrite append_nil_r. unfold dquote. reflexivity.
  - simpl in H. apply andb_prop in H as [Hc Hs].
    rewrite append_assoc, (getJsonString_loop_escape_char _ _ _ Hc).
    rewrite (IH _ Hs), push_back_append. reflexivity.
Qed.

Ltac recognized E :=
  apply Ascii.eqb_eq in E; subst;
  split; [discriminate|];
  let H := fresh in intro H; exfalso; apply H; simpl; auto 10.

Lemma escaped_None_iff (c : ascii) :
  escaped c = None <-> ~ In c recognized_escapes.
Proof.
  unfold escaped, recognized_escapes.
  destruct (c =? "/")%char eqn:E1; [recognized E1|].
  destruct (c =? dquote)%char eqn:E2; [recognized E2|].
  destruct (c =? backslash)%char eqn:E3; [recognized E3|].
  cbn [orb].
  destruct (c =? "b")%char eqn:E4; [recognized E4|].
  destruct (c =? "f")%char eqn:E5; [recognized E5|].
  destruct (c =? "n")%char eqn:E6; [recognized E6|].
  destruct (c =? "r")%char eqn:E7; [recognized E7|].
  destruct (c =? "t")%char eqn:E8; [recognized E8|].
  apply Ascii.eqb_neq in E1, E2, E3, E4, E5, E6, E7, E8.
  split; [|reflexivity]. intros _ H. simpl in H.
  repeat (destruct H as [H|H]; [congruence|]). exact H.
Qed.

Lemma getJsonString_loop_escaped_end (s str : string) :
  all_chars short_escape s = true ->
  getJsonString_loop (escape_json_string s) str = Ok (str ++ s, "").
Proof.
  revert str. induction s as [|c s IH]; intros str H; simpl.
  - rewrite append_nil_r. reflexivity.
  - simpl in H. apply andb_prop in H as [Hc Hs].
    rewrite (getJsonString_loop_escape_char _ _ _ Hc), (IH _ Hs).
    rewrite push_back_append. reflexivity.
Qed.

(** The loop of [getJsonString] stops at the end of the text or on a
    quote. *)
Lemma getJsonString_loop_stops (u : string) :
  forall str0 str c u',
    getJsonString_loop u str0 = Ok (str, String c u') -> c = dquote.
Proof.
  assert (H : forall n u, (String.length u <= n)%nat ->
                forall str0 str c u',
                  getJsonString_loop u str0 = Ok (str, String c u') ->
                  c = dquote).
  { intro n. induction n as [|n IH]; intros u0 Hn str0 str c u'.
    - destruct u0; [|simpl in Hn; lia]. simpl. discriminate.
    - destruct u0 as [|c0 u1]; simpl; [discriminate|].
      simpl in Hn. destruct (c0 =? dquote)%char eqn:E.
      + intro H. injection H as _ <- _. apply Ascii.eqb_eq, E.
      + destruct (c0 =? backslash)%char.
        * destruct u1 as [|d u2]; [simpl; discriminate|].
          destruct (escaped d); [|discriminate].
          apply IH. simpl in Hn. lia.
        * apply IH. lia. }
  apply (H (String.length u)). lia.
Qed.

Lemma all_chars_append (p : ascii -> bool) (a b : string) :
  all_chars p (a ++ b) = all_chars p a && all_chars p b.
Proof.
  induction a as [|c a IH]; simpl; [reflexivity|].
  rewrite IH, andb_assoc. reflexivity.
Qed.

(** *** The writer's escapes, character by character *)

Ltac each_char c := destruct c as [[] [] [] [] [] [] [] []].

Lemma escape_char_raw (c : ascii) :
  needs_escape c = false -> escape_char c = String c "".
Proof.
  each_char c; vm_compute; intro H; first [reflexivity|discriminate H].
Qed.

Lemma escape_char_escapes (c : ascii) :
  needs_escape c = true ->
  exists e tail,
    escape_char c = String backslash (String e tail) /\
    (if short_escape c then tail = "" /\ escaped e = Some c
     else e = "u"%char /\ String.length tail = 4%nat).
Proof.
  each_char c; vm_compute; intro H; try discriminate H;
    eexists; eexists; (split; [reflexivity|split; reflexivity]).
Qed.

Lemma escape_char_printable (c : ascii) :
  all_chars printable (escape_char c) = true.
Proof. each_char c; vm_compute; reflexivity. Qed.

Lemma escape_json_string_printable (s : string) :
  all_chars printable (escape_json_string s) = true.
Proof.
  induction s as [|c s IH]; [reflexivity|].
  cbn [escape_json_string]. rewrite all_chars_append, escape_char_printable.
  exact IH.
Qed.

(** The reader knows no \u escape: a written control character without a
    two-character escape is not read back. *)
Lemma escape_char_unread (c : ascii) (rest : string) :
  short_escape c = false ->
  getJsonString
    (_output (write_string (String c "") (mkJsonWriter "" 0)) ++ rest)
  = Error (unrecognized_escape "u").
Proof.
  each_char c; vm_compute; intro H; first [reflexivity|discriminate H].
Qed.

(** C9: in a quoted string a backslash and one of the eight recognized
    escape characters stand for the character of the escape, any other
    character after a backslash makes the scan fail with the
    unrecognized-escape error, and the scan succeeds only on a closing
    quote: a string that runs to the end of the text makes it fail with
    the expected-quote error.  The writer escapes quote, backslash and
    control characters, so a written string is scanned back to itself;
    the text of the escape test is read as the payload with the line feed
    and the quote, which is written as that text again.  Of the writer:
    every character but the quote, the backslash and the control
    characters is written as it is; each of these is written as a
    backslash and more, the two-character escape that the reader resolves
    to it where JSON has one, \u and four characters otherwise; no control
    character is left in a written string.  The reader resolves no \u
    escape, so a written control character without a two-character escape
    is not read back; and it takes a control character as it is, like any
    character but the quote and the backslash. *)
Theorem string_escapes (s t rest : string) (c : ascii) :
  all_chars short_escape s = true ->
  all_chars plain_char t = true ->
  ~ In c recognized_escapes ->
  (map escaped recognized_escapes
   = map Some ["/"%char; dquote; backslash; BS; FF; LF; CR; HT]) /\
  (forall c0 u str,
     getJsonString_loop (String backslash (String c0 u)) str
     = match escaped c0 with
       | Some c' => getJsonString_loop u (push_back str c')
       | None => Error (unrecognized_escape c0)
       end) /\
  getJsonString (quoted (t ++ String backslash (String c rest)))
  = Error (unrecognized_escape c) /\
  (forall u,
     match getJsonString_loop u "" with
     | Ok (str, "") => getJsonString (String dquote u) = Error expected_quote
     | Ok (str, String c0 u') =>
         c0 = dquote /\ getJsonString (String dquote u) = Ok (str, u')
     | Error e => getJsonString (String dquote u) = Error e
     end) /\
  getJsonString (String dquote t) = Error expected_quote /\
  getJsonString (String dquote (escape_json_string s)) = Error expected_quote /\
  getJsonString (_output (write_string s (mkJsonWriter "" 0)) ++ rest)
  = Ok (s, rest) /\
  read escape_text JsonValue.default
  = Normal (JsonValue.of_string 0 0 escape_payload) /\
  write (JsonValue.of_string 0 0 escape_payload) = escape_text /\
  (forall c0, needs_escape c0 = false -> escape_char c0 = String c0 "") /\
  (forall c0, needs_escape c0 = true ->
     exists e tail,
       escape_char c0 = String backslash (String e tail) /\
       (if short_escape c0 then tail = "" /\ escaped e = Some c0
        else e = "u"%char /\ String.length tail = 4%nat)) /\
  (forall s0, all_chars printable (escape_json_string s0) = true) /\
  (forall c0 rest0, short_escape c0 = false ->
     getJsonString
       (_output (write_string (String c0 "") (mkJsonWriter "" 0)) ++ rest0)
     = Error (unrecognized_escape "u")) /\
  getJsonString (quoted t ++ rest) = Ok (t, rest).
Proof.
  intros Hs Ht Hc. split; [reflexivity|]. split; [reflexivity|].
  assert (Hend : forall u,
             match getJsonString_loop u "" with
             | Ok (str, "") =>
                 getJsonString (String dquote u) = Error expected_quote
             | Ok (str, String c0 u') =>
                 c0 = dquote /\ getJsonString (String dquote u) = Ok (str, u')
             | Error e => getJsonString (String dquote u) = Error e
             end).
  { intro u. unfold getJsonString. cbn [moveAhead].
    destruct (getJsonString_loop u "") as [[str [|c0 u']]|e] eqn:E;
      [reflexivity| |reflexivity].
    pose proof (getJsonString_loop_stops _ _ _ _ _ E) as ->.
    split; reflexivity. }
  split; [|split; [exact Hend|split; [|split; [|split;
    [|split; [reflexivity|split; [reflexivity|]]]]]]].
  - unfold getJsonString, quoted. cbn [moveAhead].
    rewrite append_assoc, (getJsonString_loop_plain _ _ _ Ht).
    cbn [append getJsonString_loop]. unfold backslash, dquote. cbn.
    apply escaped_None_iff in Hc. rewrite Hc. reflexivity.
  - specialize (Hend t).
    pose proof (getJsonString_loop_plain t "" "" Ht) as Hloop.
    rewrite append_nil_r in Hloop. cbn in Hloop.
    rewrite Hloop in Hend. exact Hend.
  - specialize (Hend (escape_json_string s)).
    rewrite (getJsonString_loop_escaped_end _ "" Hs) in Hend. exact Hend.
  - unfold write_string, output. cbn [_output _depth append].
    unfold getJsonString. cbn [moveAhead].
    rewrite !append_assoc. cbn [append].
    rewrite (getJsonString_loop_escaped _ _ _ Hs). reflexivity.
  - split; [exact escape_char_raw|]. split; [exact escape_char_escapes|].
    split; [exact escape_json_string_printable|].
    split; [exact escape_char_unread|].
    unfold getJsonString, quoted. cbn [moveAhead append].
    rewrite append_assoc, (getJsonString_loop_plain _ _ _ Ht).
    cbn [append getJsonString_loop]. rewrite Ascii.eqb_refl. reflexivity.
Qed.

Lemma string_escapes_witness :
  (map escaped recognized_escapes
   = map Some ["/"%char; dquote; backslash; BS; FF; LF; CR; HT]) /\
  (forall c0 u str,
     getJsonString_loop (String backslash (String c0 u)) str
     = match escaped c0 with
       | Some c' => getJsonString_loop u (push_back str c')
       | None => Error (unrecognized_escape c0)
       end) /\
  getJsonString (quoted ("ab" ++ String backslash (String "u" "0041")))
  = Error (unrecognized_escape "u") /\
  (forall u,
     match getJsonString_loop u "" with
     | Ok (str, "") => getJsonString (String dquote u) = Error expected_quote
     | Ok (str, String c0 u') =>
         c0 = dquote /\ getJsonString (String dquote u) = Ok (str, u')
     | Error e => getJsonString (String dquote u) = Error e
     end) /\
  getJsonString (String dquote "ab") = Error expected_quote /\
  getJsonString (String dquote (escape_json_string escape_payload))
  = Error expected_quote /\
  getJsonString (_output (write_string escape_payload (mkJsonWriter "" 0))
                   ++ "0041")
  = Ok (escape_payload, "0041") /\
  read escape_text JsonValue.default
  = Normal (JsonValue.of_string 0 0 escape_payload) /\
  write (JsonValue.of_string 0 0 escape_payload) = escape_text /\
  (forall c0, needs_escape c0 = false -> escape_char c0 = String c0 "") /\
  (forall c0, needs_escape c0 = true ->
     exists e tail,
       escape_char c0 = String backslash (String e tail) /\
       (if short_escape c0 then tail = "" /\ escaped e = Some c0
        else e = "u"%char /\ String.length tail = 4%nat)) /\
  (forall s0, all_chars printable (escape_json_string s0) = true) /\
  (forall c0 rest0, short_escape c0 = false ->
     getJsonString
       (_output (write_string (String c0 "") (mkJsonWriter "" 0)) ++ rest0)
     = Error (unrecognized_escape "u")) /\
  getJsonString (quoted "ab" ++ "0041") = Ok ("ab", "0041").
Proof.
  apply (string_escapes escape_payload "ab" "0041" "u"%char).
  - reflexivity.
  - reflexivity.
  - intro H. simpl in H.
    repeat (destruct H as [H|H]; [discriminate H|]). exact H.
Defined.

(** ** The fuel of [parse] *)

Lemma ends_within_weaken {A : Type} (strict : bool) (n m : nat)
  (o : outcome (parser_state A)) :
  ends_within strict n o -> (n <= m)%nat -> ends_within false m o.
Proof.
  destruct o as [[a ts]|e [a ts]|]; simpl; [|lia|auto].
  destruct strict; lia.
Qed.

Lemma processToken_skip (type : JsonTokenType) (ts ts' : list JsonToken)
  (more : bool) :
  processToken type true true ts = Ok (more, ts') ->
  exists t, ts = t :: ts'.
Proof.
  unfold processToken. destruct ts as [|t ts0].
  - simpl. discriminate.
  - destruct (JsonTokenType_eqb (token_type t) type); simpl; [|discriminate].
    intro H. injection H as _ <-. eauto.
Qed.

Lemma processToken_length (type : JsonTokenType) (skip mustMatch : bool)
  (ts ts' : list JsonToken) (more : bool) :
  processToken type skip mustMatch ts = Ok (more, ts') ->
  (length ts' <= length ts)%nat.
Proof.
  unfold processToken. destruct ts as [|t ts0].
  - destruct mustMatch, skip; simpl; try discriminate;
      intro H; injection H as _ <-; simpl; lia.
  - destruct (JsonTokenType_eqb (token_type t) type), mustMatch, skip; simpl;
      try discriminate; intro H; injection H as _ <-; simpl; lia.
Qed.

Lemma parse_ends_all (fuel : nat) : parse_ends fuel.
Proof.
  induction fuel as [|fuel (IHv & IHo & IHp & IHl & IHa & IHm)];
    unfold parse_ends.
  - repeat split; intros; try lia;
      destruct ts; simpl in *; try congruence; lia.
  - repeat split.
    + (* parse_value *)
      intros value ts Hf. cbn [parse_value].
      destruct ts as [|t ts0]; [simpl; lia|].
      destruct (token_type t); simpl; try lia.
      * apply IHo; [discriminate|simpl in *; lia].
      * apply IHa; [discriminate|simpl in *; lia].
    + (* parseObject *)
      intros value ts Hne Hf. cbn [parseObject].
      specialize (IHp (getObject (setType VObject value)) ts Hne
                    ltac:(lia)).
      destruct (parse_object fuel _ ts) as [[o ts']|e [o ts']|]; exact IHp.
    + (* parse_object *)
      intros obj ts Hne Hf. cbn [parse_object].
      destruct (processToken JsonTokenObjectStart true true ts)
        as [[more ts1]|e] eqn:E1; [|simpl; lia].
      apply processToken_skip in E1 as [t ->]. simpl in Hf.
      assert (Hloop : ends_within false (length ts1)
                        (if more && current_type_differs JsonTokenObjectStart ts1
                         then parse_object_loop fuel obj ts1
                         else Normal (obj, ts1))).
      { destruct (more && _); [apply IHl; lia|simpl; lia]. }
      destruct (if more && _ then _ else _) as [[o ts2]|e [o ts2]|];
        simpl in Hloop; [|simpl; lia|contradiction].
      destruct (processToken JsonTokenObjectEnd true true ts2)
        as [[m3 ts3]|e] eqn:E3; [|simpl; lia].
      apply processToken_length in E3. simpl. lia.
    + (* parse_object_loop *)
      intros obj ts Hf. cbn [parse_object_loop].
      destruct (processToken JsonTokenString false true ts)
        as [[m0 ts0]|e] eqn:E0; [|simpl; lia].
      assert (Hts : exists t ts1, ts = t :: ts1).
      { destruct ts as [|t ts1]; [discriminate E0|eauto]. }
      destruct Hts as [t [ts1 ->]]. cbn [tl]. simpl in Hf.
      destruct (processToken JsonTokenAssign true true ts1)
        as [[m2 ts2]|e] eqn:E2; [|simpl; lia].
      apply processToken_skip in E2 as [t2 ->]. simpl in Hf.
      specialize (IHv JsonValue.default ts2 ltac:(lia)).
      destruct (parse_value fuel JsonValue.default ts2)
        as [[value ts3]|e [value ts3]|]; simpl in IHv;
        [|simpl; lia|contradiction].
      destruct (JsonObject.find _ obj); [simpl; lia|].
      destruct (processToken JsonTokenNext true false ts3)
        as [[go ts4]|e] eqn:E4; [|simpl; lia].
      apply processToken_length in E4.
      destruct go; [|simpl; lia].
      apply (ends_within_weaken false (length ts4)); [|simpl; lia].
      apply IHl. lia.
    + (* parseArray *)
      intros value ts Hne Hf. cbn [parseArray].
      destruct (processToken JsonTokenArrayStart true true ts)
        as [[more ts1]|e] eqn:E1; [|simpl; lia].
      apply processToken_skip in E1 as [t ->]. simpl in Hf.
      assert (Hloop : ends_within false (length ts1)
                        (if more && current_type_differs JsonTokenArrayStart ts1
                         then parseArray_loop fuel
                                (getArray (setType VArray value)) ts1
                         else Normal (getArray (setType VArray value), ts1))).
      { destruct (more && _); [apply IHm; lia|simpl; lia]. }
      destruct (if more && _ then _ else _) as [[a ts2]|e [a ts2]|];
        simpl in Hloop; [|simpl; lia|contradiction].
      destruct (processToken JsonTokenArrayEnd true true ts2)
        as [[m3 ts3]|e] eqn:E3; [|simpl; lia].
      apply processToken_length in E3. simpl. lia.
    + (* parseArray_loop *)
      intros array ts Hf. cbn [parseArray_loop].
      specialize (IHv JsonValue.default ts ltac:(lia)).
      destruct (parse_value fuel JsonValue.default ts)
        as [[value ts1]|e [value ts1]|]; simpl in IHv;
        [|simpl; lia|contradiction].
      destruct (processToken JsonTokenNext true false ts1)
        as [[go ts2]|e] eqn:E2; [|simpl; lia].
      apply processToken_length in E2.
      destruct go; [|simpl; lia].
      apply (ends_within_weaken false (length ts2)); [|simpl; lia].
      apply IHm. lia.
Qed.

(** With its fuel [parse] always comes to an end: it returns or throws. *)
Theorem parse_returns_or_throws (value : JsonValue) (ts : list JsonToken) :
  (exists s, parse value ts = Normal s) \/
  (exists e s, parse value ts = Throw e s).
Proof.
  unfold parse, parse_fuel.
  pose proof (proj1 (parse_ends_all (3 * length ts + 3)) value ts
                ltac:(lia)) as H.
  destruct (parse_value _ value ts) as [s|e s|]; [left|right|]; eauto.
  contradiction.
Qed.

(** * The round trip through the writer and the reader *)

(** ** Induction on values *)

Lemma JsonValue_induction (P : JsonValue -> Prop) :
  (forall number integer64 uint64 boolean str object array type,
      Forall (fun it => P (snd it)) object -> Forall P array ->
      P (mkJsonValue number integer64 uint64 boolean str object array type)) ->
  forall v, P v.
Proof.
  intro step.
  refine (fix IH (v : JsonValue) : P v :=
            match v with
            | mkJsonValue number integer64 uint64 boolean str object array type =>
                step number integer64 uint64 boolean str object array type
                  ((fix members (l : list (string * JsonValue))
                      : Forall (fun it => P (snd it)) l :=
                      match l with
                      | [] => Forall_nil _
                      | it :: l' => Forall_cons it (IH (snd it)) (members l')
                      end) object)
                  ((fix elements (l : list JsonValue) : Forall P l :=
                      match l with
                      | [] => Forall_nil _
                      | it :: l' => Forall_cons it (IH it) (elements l')
                      end) array)
            end).
Qed.

(** ** The writer adds [render] to the output *)

Lemma output_output (a b : string) (w : JsonWriter) :
  output b (output a w) = output (a ++ b) w.
Proof. unfold output. simpl. rewrite append_assoc. reflexivity. Qed.

Lemma write_each_lines {A : Type} (body : A -> JsonWriter -> JsonWriter)
  (f : nat -> A -> string) (l : list A) :
  Forall (fun it => forall w, body it w = output (f (_depth w) it) w) l ->
  forall w, write_each body l w = output (lines (f (_depth w)) l) w.
Proof.
  induction 1 as [|it l Hit _ IH]; intro w; simpl.
  - unfold output. rewrite append_nil_r. destruct w; reflexivity.
  - rewrite Hit. destruct l as [|it' l'].
    + cbn [write_each lines]. rewrite !output_output. reflexivity.
    + rewrite IH, !output_output. reflexivity.
Qed.

Ltac norm_append :=
  repeat (progress (rewrite ?append_assoc; cbn [append])).

Lemma write_value_render (v : JsonValue) :
  forall w, write_value v w = output (render (_depth w) v) w.
Proof.
  induction v as [number integer64 uint64 boolean str object array type
                    IHo IHa] using JsonValue_induction.
  intro w. destruct type; cbn [write_value render]; try reflexivity.
  - unfold write_string, quoted. rewrite !output_output. reflexivity.
  - rewrite (write_each_lines _
               (fun d it => tabs d ++ quoted (escape_json_string (fst it))
                              ++ " : " ++ render d (snd it))).
    + destruct object; cbn [JsonObject.empty negb];
        unfold set_depth, output; cbn [_output _depth pred];
        norm_append; reflexivity.
    + clear -IHo. induction IHo as [|it l Hit _ IH]; constructor; auto.
      intro w. rewrite Hit. unfold write_string, quoted.
      rewrite !output_output. cbn [output _depth].
      norm_append. reflexivity.
  - rewrite (write_each_lines _ (fun d it => tabs d ++ render d it)).
    + destruct array; cbn [JsonArray.empty negb];
        unfold set_depth, output; cbn [_output _depth pred];
        norm_append; reflexivity.
    + clear -IHa. induction IHa as [|it l Hit _ IH]; constructor; auto.
      intro w. rewrite Hit, !output_output. reflexivity.
Qed.

Lemma write_render (v : JsonValue) : write v = render 0 v.
Proof. unfold write. rewrite write_value_render. reflexivity. Qed.

(** ** Predicates over the characters of a string *)

Lemma all_chars_weaken (p q : ascii -> bool) (s : string) :
  (forall c, p c = true -> q c = true) ->
  all_chars p s = true -> all_chars q s = true.
Proof.
  intro Hpq. induction s as [|c s IH]; simpl; [reflexivity|].
  intro H. apply andb_prop in H as [Hc Hs].
  rewrite (Hpq _ Hc), (IH Hs). reflexivity.
Qed.

Lemma all_chars_substring (p : ascii -> bool) (s : string) :
  all_chars p s = true ->
  forall n m, all_chars p (substring n m s) = true.
Proof.
  induction s as [|c s IH]; intros H n m.
  - destruct n, m; reflexivity.
  - simpl in H. apply andb_prop in H as [Hc Hs].
    destruct n; simpl.
    + destruct m; simpl; [reflexivity|]. rewrite Hc. apply IH, Hs.
    + apply IH, Hs.
Qed.

Lemma all_chars_strip_zeros (p : ascii -> bool) (s : string) :
  all_chars p s = true -> all_chars p (strip_zeros s) = true.
Proof.
  induction s as [|c s IH]; simpl; [reflexivity|].
  intro H. apply andb_prop in H as [Hc Hs]. specialize (IH Hs).
  destruct (strip_zeros s).
  - destruct (c =? "0")%char; simpl; [reflexivity|]. rewrite Hc. reflexivity.
  - cbn [all_chars]. rewrite Hc. exact IH.
Qed.

Lemma all_chars_zeros (n : nat) : all_chars is_numericChar (zeros n) = true.
Proof. induction n; simpl; auto. Qed.

Lemma all_chars_tabs (n : nat) : all_chars isWhiteSpace (tabs n) = true.
Proof. induction n; simpl; auto. Qed.

(** ** The shape of the number texts *)

Lemma string_of_uint_digits (d : Decimal.uint) :
  all_chars is_digit (NilEmpty.string_of_uint d) = true.
Proof. induction d; simpl; auto. Qed.

Lemma is_digit_numericChar (c : ascii) :
  is_digit c = true -> is_numericChar c = true.
Proof.
  destruct c as [[] [] [] [] [] [] [] []]; try discriminate; reflexivity.
Qed.

Lemma number_text_uint (d : Decimal.uint) :
  number_text (NilZero.string_of_uint d) = true.
Proof.
  pose proof (string_of_uint_digits d) as H.
  unfold NilZero.string_of_uint.
  destruct d; try reflexivity; simpl in *;
    rewrite (all_chars_weaken _ _ _ is_digit_numericChar H); reflexivity.
Qed.

Lemma number_text_numeric (t : string) :
  number_text t = true -> all_chars is_numericChar t = true.
Proof.
  destruct t as [|c t]; [discriminate|]. unfold number_text.
  intro H. apply andb_prop in H as [_ H]. exact H.
Qed.

Lemma number_text_to_string_Z (z : Z) : number_text (to_string_Z z) = true.
Proof.
  unfold to_string_Z, NilZero.string_of_int.
  destruct (Z.to_int z) as [d|d].
  - apply number_text_uint.
  - pose proof (number_text_numeric _ (number_text_uint d)) as H.
    unfold number_text. cbn [all_chars]. rewrite H. reflexivity.
Qed.

Lemma number_text_prefix (t u : string) :
  number_text t = true -> all_chars is_numericChar u = true ->
  number_text (t ++ u) = true.
Proof.
  destruct t as [|c t]; [discriminate|]. unfold number_text.
  cbn [append]. intros H Hu. apply andb_prop in H as [Hc Ht].
  rewrite Hc. change (String c (t ++ u)) with (String c t ++ u).
  rewrite all_chars_append, Ht, Hu. reflexivity.
Qed.

Lemma number_text_substring (ds : string) (n : nat) :
  number_text ds = true -> number_text (substring 0 (S n) ds) = true.
Proof.
  destruct ds as [|c ds]; [discriminate|]. unfold number_text.
  intro H. apply andb_prop in H as [Hc Hds]. cbn [substring].
  rewrite Hc.
  change (String c (substring 0 n ds)) with (substring 0 (S n) (String c ds)).
  rewrite (all_chars_substring _ _ Hds). reflexivity.
Qed.

Lemma number_text_format_general (num den : Z) :
  number_text (format_general num den) = true.
Proof.
  unfold format_general.
  set (x0 := exponent10 num den).
  set (d0 := if 0 <=? 5 - x0 then _ else _).
  destruct (if d0 =? 1000000 then (100000, x0 + 1) else (d0, x0)) as [d x].
  pose proof (number_text_to_string_Z d) as Hds.
  pose proof (number_text_numeric _ Hds) as Hnum.
  destruct ((x <? -4) || (6 <=? x)).
  - apply number_text_prefix; [apply number_text_substring, Hds|].
    rewrite !all_chars_append.
    rewrite (number_text_numeric _ (number_text_to_string_Z _)).
    assert (Hf : all_chars is_numericChar
                   (strip_zeros (substring 1 5 (to_string_Z d))) = true)
      by (apply all_chars_strip_zeros, all_chars_substring, Hnum).
    destruct (strip_zeros _); destruct (x <? 0); destruct (Z.abs x <? 10);
      cbn [append all_chars] in *; rewrite ?Hf; reflexivity.
  - destruct (0 <=? x) eqn:Ex.
    + apply Z.leb_le in Ex.
      assert (Hn : exists n, Z.to_nat (x + 1) = S n)
        by (exists (Z.to_nat x); lia).
      destruct Hn as [n Hn]; rewrite Hn.
      * apply number_text_prefix; [apply number_text_substring, Hds|].
        assert (Hf : all_chars is_numericChar
                       (strip_zeros (substring (S n) (6 - S n) (to_string_Z d)))
                     = true)
          by (apply all_chars_strip_zeros, all_chars_substring, Hnum).
        destruct (strip_zeros _); cbn [append all_chars] in *;
          rewrite ?Hf; reflexivity.
    + change ("0." ++ zeros (Z.to_nat (- x - 1)) ++ strip_zeros (to_string_Z d))
        with ("0." ++ (zeros (Z.to_nat (- x - 1)) ++ strip_zeros (to_string_Z d))).
      apply number_text_prefix; [reflexivity|].
      rewrite all_chars_append, all_chars_zeros.
      apply all_chars_strip_zeros, Hnum.
Qed.

Lemma number_text_to_string_double (d : float) :
  reads_back_as VDouble (to_string_double d) d = true ->
  number_text (to_string_double d) = true.
Proof.
  unfold reads_back_as, to_string_double. intro H.
  apply andb_prop in H as [H _].
  destruct (Prim2SF d) as [s|s| |s m e].
  - destruct s; vm_compute in H; discriminate.
  - destruct s; vm_compute in H; discriminate.
  - vm_compute in H; discriminate.
  - clear H. pose proof (number_text_format_general
                           (Z.pos m * 2 ^ Z.max e 0) (2 ^ Z.max (- e) 0)) as Hf.
    destruct s; cbn [append]; [|exact Hf].
    unfold number_text. cbn [all_chars].
    rewrite (number_text_numeric _ Hf). reflexivity.
Qed.

(** ** One round of the scan on the text of one token *)

Lemma eatWhitespace_append (ws s : string) :
  all_chars isWhiteSpace ws = true ->
  eatWhitespace (ws ++ s) = eatWhitespace s.
Proof.
  induction ws as [|c ws IH]; simpl; [reflexivity|].
  intro H. apply andb_prop in H as [Hc Hs]. rewrite Hc. auto.
Qed.

Lemma scan_loop_whitespace (fuel : nat) (ws s : string)
  (tokens : list JsonToken) :
  all_chars isWhiteSpace ws = true -> s <> "" ->
  scan_loop fuel (ws ++ s) tokens = scan_loop fuel s tokens.
Proof.
  intros Hws Hs.
  assert (Hne : eos (ws ++ s) = false)
    by (destruct ws; [destruct s; [congruence|]|]; reflexivity).
  assert (Hes : eos s = false) by (destruct s; [congruence|reflexivity]).
  destruct fuel; cbn [scan_loop]; rewrite Hne, Hes; [reflexivity|].
  unfold scan_round. rewrite (eatWhitespace_append _ _ Hws). reflexivity.
Qed.

Lemma scan_loop_round (fuel : nat) (s s' : string) (token : JsonToken)
  (tokens : list JsonToken) :
  s <> "" -> scan_round s = Ok (token, s') ->
  scan_loop (S fuel) s tokens = scan_loop fuel s' (tokens ++ [token]).
Proof.
  intros Hs Hround. cbn [scan_loop]. rewrite Hround.
  destruct s; [congruence|reflexivity].
Qed.

Lemma getJsonNumber_loop_text (t rest number : string) :
  all_chars is_numericChar t = true -> ends_number rest = true ->
  getJsonNumber_loop (t ++ rest) number = (number ++ t, rest).
Proof.
  intros Ht Hrest. revert number.
  induction t as [|c t IH]; intro number; cbn [append].
  - rewrite append_nil_r. destruct rest as [|c rest]; [reflexivity|].
    cbn [getJsonNumber_loop]. cbn [ends_number] in Hrest.
    apply negb_true_iff in Hrest. rewrite Hrest. reflexivity.
  - cbn [all_chars] in Ht. apply andb_prop in Ht as [Hc Ht].
    cbn [getJsonNumber_loop]. rewrite Hc, (IH Ht), push_back_append.
    reflexivity.
Qed.

Lemma number_start (c : ascii) :
  ((c =? "-")%char || is_digit c) = true ->
  forall s, scan_round (String c s)
            = let (value, s') := getJsonNumber (String c s) in
              Ok (mkJsonToken JsonTokenNumber value, s').
Proof.
  destruct c as [[] [] [] [] [] [] [] []]; try discriminate;
    intros _; reflexivity.
Qed.

Lemma scan_round_number (t rest : string) :
  number_text t = true -> ends_number rest = true ->
  scan_round (t ++ rest) = Ok (mkJsonToken JsonTokenNumber t, rest).
Proof.
  intros Ht Hrest. pose proof (number_text_numeric _ Ht) as Hnum.
  destruct t as [|c t]; [discriminate|].
  unfold number_text in Ht. apply andb_prop in Ht as [Hc _].
  cbn [append]. rewrite (number_start c Hc).
  unfold getJsonNumber.
  change (String c (t ++ rest)) with (String c t ++ rest).
  rewrite (getJsonNumber_loop_text _ _ _ Hnum Hrest). reflexivity.
Qed.

Lemma no_special_short_escape (c : ascii) :
  no_special c = true -> short_escape c = true.
Proof.
  unfold no_special, short_escape. intro H.
  apply andb_prop in H as [_ H]. rewrite H. reflexivity.
Qed.

Lemma no_special_escape (s : string) :
  all_chars no_special s = true -> escape_json_string s = s.
Proof.
  induction s as [|c s IH]; simpl; [reflexivity|].
  intro H. apply andb_prop in H as [Hc Hs]. rewrite (IH Hs).
  unfold no_special, plain_char in Hc.
  apply andb_prop in Hc as [Hc Hn]. apply andb_prop in Hc as [Hq Hb].
  apply negb_true_iff in Hq, Hb. apply N.leb_le in Hn.
  unfold escape_char. rewrite Hq, Hb.
  assert (Hlt : (N_of_ascii c <? 32)%N = false) by (apply N.ltb_ge; lia).
  destruct (c =? BS)%char eqn:E1;
    [apply Ascii.eqb_eq in E1; subst; simpl in Hn; lia|].
  destruct (c =? FF)%char eqn:E2;
    [apply Ascii.eqb_eq in E2; subst; simpl in Hn; lia|].
  destruct (c =? LF)%char eqn:E3;
    [apply Ascii.eqb_eq in E3; subst; simpl in Hn; lia|].
  destruct (c =? CR)%char eqn:E4;
    [apply Ascii.eqb_eq in E4; subst; simpl in Hn; lia|].
  destruct (c =? HT)%char eqn:E5;
    [apply Ascii.eqb_eq in E5; subst; simpl in Hn; lia|].
  rewrite Hlt. reflexivity.
Qed.

Lemma scan_round_string (s rest : string) :
  all_chars no_special s = true ->
  scan_round (quoted (escape_json_string s) ++ rest)
  = Ok (mkJsonToken JsonTokenString s, rest).
Proof.
  intro Hs. unfold quoted. cbn [append].
  change (scan_round (String dquote ?x))
    with (match getJsonString (String dquote x) with
          | Ok (value, s') => Ok (mkJsonToken JsonTokenString value, s')
          | Error e => Error e
          end).
  unfold getJsonString. cbn [moveAhead].
  rewrite append_assoc. cbn [append].
  rewrite getJsonString_loop_escaped
    by (apply (all_chars_weaken _ _ _ no_special_short_escape), Hs).
  reflexivity.
Qed.

(** ** The scan of a written text *)

Lemma scan_loop_blank (fuel : nat) (c : ascii) (s : string)
  (tokens : list JsonToken) :
  isWhiteSpace c = true -> s <> "" ->
  scan_loop fuel (String c s) tokens = scan_loop fuel s tokens.
Proof.
  intros Hc Hs. apply (scan_loop_whitespace fuel (String c "") s); [|exact Hs].
  simpl. rewrite Hc. reflexivity.
Qed.

Lemma scan_loop_single (c : ascii) (type : JsonTokenType) :
  (forall s, scan_round (String c s) = Ok (mkJsonToken type (String c ""), s)) ->
  forall fuel s tokens,
    scan_loop (S fuel) (String c s) tokens
    = scan_loop fuel s (tokens ++ [mkJsonToken type (String c "")]).
Proof.
  intros H fuel s tokens. apply scan_loop_round; [discriminate|apply H].
Qed.

Lemma scan_loop_string (fuel : nat) (s rest : string)
  (tokens : list JsonToken) :
  all_chars no_special s = true ->
  scan_loop (S fuel) (quoted (escape_json_string s) ++ rest) tokens
  = scan_loop fuel rest (tokens ++ [mkJsonToken JsonTokenString s]).
Proof.
  intro Hs. apply scan_loop_round; [discriminate|].
  apply scan_round_string, Hs.
Qed.

Lemma scan_lines {A : Type} (f : A -> string) (g : A -> list JsonToken)
  (l : list A) :
  Forall (fun it => scans_to (f it) (g it)) l ->
  forall rest tokens fuel,
    rest <> "" ->
    scan_loop (length (separated g l) + fuel) (lines f l ++ rest) tokens
    = scan_loop fuel rest (tokens ++ separated g l).
Proof.
  induction 1 as [|it l Hit _ IH]; intros rest tokens fuel Hrest.
  - cbn. rewrite app_nil_r. reflexivity.
  - cbn [lines separated]. destruct l as [|it' l'].
    + cbn [lines separated]. norm_append.
      rewrite !app_nil_r, (Hit (String LF rest));
        [|reflexivity|discriminate].
      apply scan_loop_blank; [reflexivity|exact Hrest].
    + norm_append. rewrite !length_app. cbn [length].
      replace (length (g it) + (1 + length (separated g (it' :: l'))) + fuel)%nat
        with (length (g it) + S (length (separated g (it' :: l')) + fuel))%nat
        by lia.
      rewrite Hit; [|reflexivity|discriminate].
      rewrite (scan_loop_single "," JsonTokenNext) by reflexivity.
      rewrite scan_loop_blank;
        [|reflexivity|destruct (lines f (it' :: l')); [exact Hrest|discriminate]].
      rewrite IH by exact Hrest.
      rewrite <- !app_assoc. reflexivity.
Qed.

Lemma forallb_Forall_and {A : Type} (p : A -> bool) (P : A -> Prop)
  (l : list A) :
  forallb p l = true -> Forall P l ->
  Forall (fun x => p x = true /\ P x) l.
Proof.
  intros Hp HP. induction HP as [|x l Hx _ IH]; constructor.
  - simpl in Hp. apply andb_prop in Hp as [Hp _]. auto.
  - apply IH. simpl in Hp. apply andb_prop in Hp as [_ Hp]. exact Hp.
Qed.

Lemma scan_container (opening closing : ascii) (topen tclose : JsonTokenType)
  {A : Type} (f : A -> string) (g : A -> list JsonToken) (l : list A)
  (depth : nat) :
  (forall s, scan_round (String opening s)
             = Ok (mkJsonToken topen (String opening ""), s)) ->
  (forall s, scan_round (String closing s)
             = Ok (mkJsonToken tclose (String closing ""), s)) ->
  l <> [] ->
  Forall (fun it => scans_to (f it) (g it)) l ->
  forall rest tokens fuel,
    scan_loop (length (mkJsonToken topen (String opening "")
                         :: separated g l
                         ++ [mkJsonToken tclose (String closing "")]) + fuel)
      ((String opening "" ++ String LF "" ++ lines f l ++ tabs depth
          ++ String closing "") ++ rest) tokens
    = scan_loop fuel rest
        (tokens ++ mkJsonToken topen (String opening "")
                     :: separated g l
                     ++ [mkJsonToken tclose (String closing "")]).
Proof.
  intros Hopen Hclose Hne Hitems rest tokens fuel.
  cbn [length Nat.add]. norm_append.
  rewrite (scan_loop_single opening topen Hopen).
  rewrite scan_loop_blank;
    [|reflexivity|destruct (lines f l); [destruct (tabs depth)|]; discriminate].
  rewrite length_app. cbn [length].
  replace (length (separated g l) + 1 + fuel)%nat
    with (length (separated g l) + S fuel)%nat by lia.
  rewrite (scan_lines f g l Hitems); [|destruct (tabs depth); discriminate].
  rewrite (scan_loop_whitespace _ (tabs depth));
    [|apply all_chars_tabs|discriminate].
  rewrite (scan_loop_single closing tclose Hclose).
  rewrite <- !app_assoc. reflexivity.
Qed.

Lemma round_trippable_tree (v : JsonValue) :
  round_trippable v = true -> round_trip_tree v = true.
Proof.
  induction v as [number integer64 uint64 boolean str object array type
                    IHo IHa] using JsonValue_induction.
  intro Hv.
  destruct type; cbn [round_trippable round_trip_tree] in *;
    try discriminate; try reflexivity; try exact Hv.
  - apply andb_prop in Hv as [Hv Hall]. rewrite Hv. cbn [andb].
    clear -Hall IHo. induction IHo as [|it l Hit _ IH]; [reflexivity|].
    cbn [forallb] in *. apply andb_prop in Hall as [H1 H2].
    apply andb_prop in H1 as [Hkey Hval].
    rewrite Hkey, (Hit Hval), (IH H2). reflexivity.
  - apply andb_prop in Hv as [Hv Hall]. rewrite Hv. cbn [andb].
    clear -Hall IHa. induction IHa as [|it l Hit _ IH]; [reflexivity|].
    cbn [forallb] in *. apply andb_prop in Hall as [H1 H2].
    rewrite (Hit H1), (IH H2). reflexivity.
Qed.

Lemma scan_render_tree (v : JsonValue) :
  round_trip_tree v = true ->
  forall depth rest tokens fuel,
    ends_number rest = true ->
    scan_loop (length (tokens_of v) + fuel) (render depth v ++ rest) tokens
    = scan_loop fuel rest (tokens ++ tokens_of v).
Proof.
  induction v as [number integer64 uint64 boolean str object array type
                    IHo IHa] using JsonValue_induction.
  intros Hv depth rest tokens fuel Hend.
  destruct type; cbn [round_trip_tree] in Hv; try discriminate;
    cbn [render tokens_of].
  - (* VInt *)
    apply scan_loop_round.
    + pose proof (number_text_to_string_Z (double_to_int number)) as H.
      unfold to_string_int. destruct (to_string_Z _); discriminate.
    + apply scan_round_number; [apply number_text_to_string_Z|exact Hend].
  - (* VBoolean *)
    apply scan_loop_round; destruct boolean; try discriminate; reflexivity.
  - (* VString *)
    apply scan_loop_string, Hv.
  - (* VDouble *)
    pose proof (number_text_to_string_double _ Hv) as H.
    apply scan_loop_round.
    + destruct (to_string_double number); discriminate.
    + apply scan_round_number; [exact H|exact Hend].
  - (* VInt64 *)
    apply scan_loop_round.
    + pose proof (number_text_to_string_Z integer64) as H.
      unfold to_string_int64. destruct (to_string_Z _); discriminate.
    + apply scan_round_number; [apply number_text_to_string_Z|exact Hend].
  - (* VUint64 *)
    apply scan_loop_round.
    + pose proof (number_text_to_string_Z uint64) as H.
      unfold to_string_uint64. destruct (to_string_Z _); discriminate.
    + apply scan_round_number; [apply number_text_to_string_Z|exact Hend].
  - (* VObject *)
    apply andb_prop in Hv as [Hv Hall]. apply andb_prop in Hv as [Hne _].
    pose proof (forallb_Forall_and _ _ _ Hall IHo) as Hitems.
    destruct object as [|it0 object0]; [discriminate|].
    apply (scan_container "{" "}" JsonTokenObjectStart JsonTokenObjectEnd);
      try reflexivity; try discriminate.
    clear -Hitems. induction Hitems as [|it l [Hit IHit] _ IH];
      constructor; [|exact IH].
    apply andb_prop in Hit as [Hkey Hval].
    intros rest tokens fuel Hend Hrest. cbn [length Nat.add]. norm_append.
    rewrite (scan_loop_whitespace _ (tabs (S depth)));
      [|apply all_chars_tabs|discriminate].
    change (String dquote (escape_json_string (fst it)
                             ++ String dquote ?x))
      with (quoted (escape_json_string (fst it)) ++ x).
    rewrite (scan_loop_string _ _ _ _ Hkey).
    rewrite scan_loop_blank; [|reflexivity|discriminate].
    rewrite (scan_loop_single ":" JsonTokenAssign) by reflexivity.
    rewrite scan_loop_blank;
      [|reflexivity|destruct (render _ _); [exact Hrest|discriminate]].
    rewrite (IHit Hval) by assumption.
    rewrite <- !app_assoc. reflexivity.
  - (* VArray *)
    apply andb_prop in Hv as [Hne Hall].
    pose proof (forallb_Forall_and _ _ _ Hall IHa) as Hitems.
    destruct array as [|it0 array0]; [discriminate|].
    apply (scan_container "[" "]" JsonTokenArrayStart JsonTokenArrayEnd);
      try reflexivity; try discriminate.
    clear -Hitems. induction Hitems as [|it l [Hit IHit] _ IH];
      constructor; [|exact IH].
    intros rest tokens fuel Hend Hrest. norm_append.
    rewrite (scan_loop_whitespace _ (tabs (S depth)));
      [|apply all_chars_tabs
       |destruct (render _ _); [exact Hrest|discriminate]].
    apply (IHit Hit); assumption.
  - (* VEmpty *)
    apply scan_loop_round; [discriminate|reflexivity].
Qed.

Lemma scan_render (v : JsonValue) :
  round_trippable v = true ->
  forall depth rest tokens fuel,
    ends_number rest = true ->
    scan_loop (length (tokens_of v) + fuel) (render depth v ++ rest) tokens
    = scan_loop fuel rest (tokens ++ tokens_of v).
Proof. intro Hv. apply scan_render_tree, round_trippable_tree, Hv. Qed.

(** ** The fuel of [scan] *)

Lemma length_append (a b : string) :
  String.length (a ++ b) = (String.length a + String.length b)%nat.
Proof. induction a; simpl; congruence. Qed.

Lemma length_push_back (s : string) (c : ascii) :
  String.length (push_back s c) = S (String.length s).
Proof. unfold push_back. rewrite length_append. simpl. lia. Qed.

Lemma eatWhitespace_length (s : string) :
  (String.length (eatWhitespace s) <= String.length s)%nat /\
  (String.length (eatWhitespace s) = String.length s -> eatWhitespace s = s).
Proof.
  induction s as [|c s [IH1 IH2]]; simpl; [auto|].
  destruct (isWhiteSpace c); simpl; split; auto; lia.
Qed.

Lemma match_loop_length (text s : string) :
  (String.length (snd (match_loop text s)) <= String.length s)%nat.
Proof.
  revert s. induction text as [|c text IH]; intro s; simpl; [lia|].
  destruct s as [|d s]; simpl; [lia|].
  destruct (c =? d)%char; simpl; [|lia]. specialize (IH s). lia.
Qed.

Lemma getJsonString_loop_length (s : string) :
  forall str str' s',
    getJsonString_loop s str = Ok (str', s') ->
    (String.length s' <= String.length s)%nat.
Proof.
  assert (H : forall n s, (String.length s <= n)%nat ->
                forall str str' s',
                  getJsonString_loop s str = Ok (str', s') ->
                  (String.length s' <= String.length s)%nat).
  { intro n. induction n as [|n IH]; intros s0 Hn str str' s'.
    - destruct s0; [|simpl in Hn; lia]. simpl. intro H. injection H as _ <-.
      simpl. lia.
    - destruct s0 as [|c s1]; simpl.
      + intro H. injection H as _ <-. simpl. lia.
      + simpl in Hn. destruct (c =? dquote)%char.
        * intro H. injection H as _ <-. simpl. lia.
        * destruct (c =? backslash)%char.
          -- destruct s1 as [|d s2].
             ++ simpl. intro H. injection H as _ <-. simpl. lia.
             ++ destruct (escaped d); [|discriminate].
                intro H. apply IH in H; simpl in *; lia.
          -- intro H. apply IH in H; simpl in *; lia. }
  intros str str' s'. apply (H (String.length s)). lia.
Qed.

Lemma getJsonString_length (s : string) (str s' : string) :
  s <> "" -> getJsonString s = Ok (str, s') ->
  (String.length s' < String.length s)%nat.
Proof.
  intros Hs. unfold getJsonString.
  destruct (getJsonString_loop (moveAhead s) "") as [[str1 s1]|] eqn:E;
    [|discriminate].
  apply getJsonString_loop_length in E.
  unfold match_. pose proof (match_loop_length (String dquote "") s1) as Hm.
  destruct (match_loop (String dquote "") s1) as [m s2]. simpl in Hm.
  destruct (negb (eos (String dquote "")) && m); [|discriminate].
  intro H. injection H as _ <-.
  destruct s; [congruence|]. simpl in *. lia.
Qed.

Lemma getJsonNumber_loop_length (s : string) :
  forall number,
    (String.length (snd (getJsonNumber_loop s number)) <= String.length s)%nat.
Proof.
  induction s as [|c s IH]; intro number; simpl; [lia|].
  destruct (is_numericChar c); simpl; [|lia].
  specialize (IH (push_back number c)). lia.
Qed.

Lemma getJsonBoolean_loop_length (n : nat) :
  forall s boolString,
    (String.length (snd (getJsonBoolean_loop n s boolString))
     <= String.length s)%nat.
Proof.
  induction n as [|n IH]; intros s boolString; simpl; [lia|].
  destruct s as [|c s]; simpl; [lia|].
  specialize (IH s (push_back boolString c)). lia.
Qed.

Lemma checkJsonEmpty_loop_length (n : nat) :
  forall s emptyString,
    let r := checkJsonEmpty_loop n s emptyString in
    (String.length (snd r) <= String.length s)%nat /\
    (String.length (fst r) + String.length (snd r)
     = String.length emptyString + String.length s)%nat.
Proof.
  induction n as [|n IH]; intros s emptyString; simpl; [lia|].
  destruct s as [|c s]; simpl; [lia|].
  destruct (isspace c); simpl; [lia|].
  specialize (IH s (push_back emptyString c)). cbv zeta in IH.
  rewrite length_push_back in IH. lia.
Qed.

Lemma checkJsonEmpty_length (text s s' : string) :
  text <> "" -> checkJsonEmpty text s = Ok s' ->
  (String.length s' < String.length s)%nat.
Proof.
  intros Ht. unfold checkJsonEmpty.
  pose proof (checkJsonEmpty_loop_length (String.length text) s "") as H.
  simpl in H.
  destruct (checkJsonEmpty_loop (String.length text) s "") as [e s1].
  simpl in H. destruct (String.eqb e text) eqn:E; [|discriminate].
  apply String.eqb_eq in E. subst e. intro H'. injection H' as <-.
  destruct text; [congruence|]. simpl in H. lia.
Qed.

Lemma peek_String (s : string) (c : ascii) :
  peek s = c -> c <> NUL -> s = String c (moveAhead s).
Proof. destruct s; simpl; intros; subst; [congruence|reflexivity]. Qed.

(** A round of the scan that does not fail shortens the text, or leaves
    it as it is. *)
Lemma scan_round_progress (s s' : string) (token : JsonToken) :
  scan_round s = Ok (token, s') ->
  (String.length s' < String.length s)%nat \/ s' = s.
Proof.
  unfold scan_round.
  destruct (eatWhitespace_length s) as [Hle Heq].
  set (s1 := eatWhitespace s) in *.
  assert (Hshort : forall c, peek s1 = c -> c <> NUL ->
                     (String.length (moveAhead s1) < String.length s)%nat).
  { intros c Hc Hn. rewrite (peek_String _ _ Hc Hn) in Hle. simpl in *. lia. }
  assert (Hne : forall c, peek s1 = c -> c <> NUL -> s1 <> "").
  { intros c Hc Hn. rewrite (peek_String _ _ Hc Hn). discriminate. }
  assert (Hsingle : forall c type,
            (peek s1 =? c)%char = true -> c <> NUL ->
            Ok (mkJsonToken type (String (peek s1) ""), moveAhead s1)
            = Ok (token, s') ->
            (String.length s' < String.length s)%nat \/ s' = s).
  { intros c type E Hc H. apply Ascii.eqb_eq in E. injection H as _ <-.
    left. apply (Hshort _ E Hc). }
  destruct (peek s1 =? "{")%char eqn:E0;
    [apply (Hsingle _ _ E0); discriminate|].
  destruct (peek s1 =? "}")%char eqn:E1;
    [apply (Hsingle _ _ E1); discriminate|].
  destruct (peek s1 =? "[")%char eqn:E2;
    [apply (Hsingle _ _ E2); discriminate|].
  destruct (peek s1 =? "]")%char eqn:E3;
    [apply (Hsingle _ _ E3); discriminate|].
  destruct (peek s1 =? ",")%char eqn:E4;
    [apply (Hsingle _ _ E4); discriminate|].
  destruct (peek s1 =? ":")%char eqn:E6;
    [apply (Hsingle _ _ E6); discriminate|].
  clear Hsingle.
  destruct (peek s1 =? dquote)%char eqn:E5.
  - (* string *)
    apply Ascii.eqb_eq in E5.
    destruct (getJsonString s1) as [[value s2]|] eqn:Eg; [|discriminate].
    intro H. injection H as _ <-. left.
    apply getJsonString_length in Eg; [lia|].
    apply (Hne _ E5). discriminate.
  - (* number *)
    destruct ((peek s1 =? "-")%char || is_digit (peek s1)) eqn:En.
    + destruct (getJsonNumber s1) as [value s2] eqn:Eg.
      intro H. injection H as _ <-. left.
      assert (Hn : is_numericChar (peek s1) = true).
      { destruct (peek s1) as [[] [] [] [] [] [] [] []]; try discriminate;
          reflexivity. }
      unfold getJsonNumber in Eg. destruct s1 as [|c s1']; [discriminate|].
      simpl in Hn, Eg. rewrite Hn in Eg.
      pose proof (getJsonNumber_loop_length s1' (push_back "" c)) as Hl.
      rewrite Eg in Hl. simpl in *. lia.
    + destruct ((peek s1 =? "t")%char || (peek s1 =? "f")%char) eqn:Eb.
      * rewrite getJsonBoolean_never_fails.
        set (n := if (peek s1 =? "f")%char then 5%nat else 4%nat).
        assert (Hn : exists n', n = S n')
          by (subst n; destruct (peek s1 =? "f")%char; eauto).
        destruct Hn as [n' Hn]. rewrite Hn.
        destruct s1 as [|c s1']; [discriminate|].
        cbn [getJsonBoolean_loop].
        pose proof (getJsonBoolean_loop_length n' s1' (push_back "" c)) as Hl.
        destruct (getJsonBoolean_loop n' s1' (push_back "" c)) as [b s2].
        intro H. injection H as _ <-. simpl in *. left. lia.
      * destruct (peek s1 =? "n")%char.
        -- destruct (checkJsonEmpty "null" s1) as [s2|] eqn:Ec; [|discriminate].
           intro H. injection H as _ <-. left.
           apply checkJsonEmpty_length in Ec; [lia|discriminate].
        -- destruct (peek s1 =? "u")%char.
           ++ destruct (checkJsonEmpty "undefined" s1) as [s2|] eqn:Ec;
                [|discriminate].
              intro H. injection H as _ <-. left.
              apply checkJsonEmpty_length in Ec; [lia|discriminate].
           ++ destruct (peek s1 =? NUL)%char; [|discriminate].
              intro H. injection H as _ <-.
              destruct (Nat.eq_dec (String.length s1) (String.length s))
                as [Hl|Hl]; [right; auto|left; lia].
Qed.

Lemma scan_loop_stuck (s : string) (token : JsonToken) :
  s <> "" -> scan_round s = Ok (token, s) ->
  forall fuel tokens, scan_loop fuel s tokens = Diverge.
Proof.
  intros Hs Hround fuel.
  assert (He : eos s = false) by (destruct s; [congruence|reflexivity]).
  induction fuel as [|fuel IH]; intro tokens; cbn [scan_loop]; rewrite He;
    [reflexivity|].
  rewrite Hround. apply IH.
Qed.

(** On a NUL character outside a string the loop of [scan] pushes an
    Empty token and does not move ahead: it never ends. *)
Theorem scan_loop_NUL (fuel : nat) (s : string) (tokens : list JsonToken) :
  scan_round (String NUL s) = Ok (mkJsonToken JsonTokenEmpty "", String NUL s)
  /\ scan_loop fuel (String NUL s) tokens = Diverge.
Proof.
  split; [reflexivity|].
  apply (scan_loop_stuck (String NUL s) (mkJsonToken JsonTokenEmpty ""));
    [discriminate|reflexivity].
Qed.

(** More fuel does not change the outcome of a scan that came to an end. *)
Lemma scan_loop_more_fuel (n : nat) :
  forall s tokens m,
    scan_loop n s tokens <> Diverge -> (n <= m)%nat ->
    scan_loop m s tokens = scan_loop n s tokens.
Proof.
  induction n as [|n IH]; intros s tokens m Hend Hle.
  - destruct s; [destruct m; reflexivity|]. simpl in Hend. congruence.
  - destruct m as [|m]; [lia|]. cbn [scan_loop] in *.
    destruct (eos s); [reflexivity|].
    destruct (scan_round s) as [[token s']|e]; [|reflexivity].
    apply IH; [exact Hend|lia].
Qed.

(** The length of the text is fuel enough for every scan that ends. *)
Lemma scan_loop_enough (n : nat) :
  forall s tokens,
    scan_loop n s tokens <> Diverge ->
    scan_loop (String.length s) s tokens = scan_loop n s tokens.
Proof.
  induction n as [|n IH]; intros s tokens Hend.
  - destruct s; [reflexivity|]. simpl in Hend. congruence.
  - destruct s as [|c s]; [reflexivity|].
    cbn [scan_loop eos String.length] in *.
    destruct (scan_round (String c s)) as [[token s']|e] eqn:Hround;
      [|reflexivity].
    destruct (scan_round_progress _ _ _ Hround) as [Hlt|Heq].
    + rewrite <- (IH _ _ Hend). apply scan_loop_more_fuel.
      * rewrite (IH _ _ Hend). exact Hend.
      * simpl in Hlt. lia.
    + subst s'. exfalso. apply Hend.
      apply (scan_loop_stuck (String c s) token); [discriminate|exact Hround].
Qed.

(** With its fuel [scan] gives the outcome of every run of the loop that
    comes to an end. *)
Theorem scan_fuel_suffices (text : string) (fuel : nat) :
  scan_loop fuel text [] = Diverge \/ scan text = scan_loop fuel text [].
Proof.
  destruct (scan_loop fuel text []) as [ts|e ts|] eqn:E; [right|right|left];
    try reflexivity;
    unfold scan; rewrite <- E; apply scan_loop_enough; rewrite E; discriminate.
Qed.

Lemma scan_write_tree (v : JsonValue) :
  round_trip_tree v = true -> scan (write v) = Normal (tokens_of v).
Proof.
  intro Hv. unfold scan. rewrite write_render.
  pose proof (scan_render_tree v Hv 0 "" [] 0 eq_refl) as H.
  rewrite append_nil_r, Nat.add_0_r, scan_loop_eos in H. cbn [app] in H.
  rewrite <- H. apply scan_loop_enough. rewrite H. discriminate.
Qed.

Lemma scan_write (v : JsonValue) :
  round_trippable v = true -> scan (write v) = Normal (tokens_of v).
Proof. intro Hv. apply scan_write_tree, round_trippable_tree, Hv. Qed.

(** ** The parse of the tokens of a written text *)

Lemma ltb_compare (a b : string) :
  String.ltb a b = true -> String.compare a b = Lt.
Proof. unfold String.ltb. destruct (String.compare a b); congruence. Qed.

Lemma find_keys_below (key : string) (o : JsonObject) :
  keys_below key o = true -> JsonObject.find key o = None.
Proof.
  induction o as [|[k v] o IH]; simpl; [reflexivity|].
  intro H. apply andb_prop in H as [Hk Ho].
  apply ltb_compare in Hk.
  destruct (String.eqb key k) eqn:E; [|auto].
  apply String.eqb_eq in E. subst.
  pose proof (String.compare_antisym k k) as Ha. rewrite Hk in Ha.
  discriminate.
Qed.

Lemma insert_keys_below (key : string) (value : JsonValue) (o : JsonObject) :
  keys_below key o = true ->
  JsonObject.insert key value o = (o ++ [(key, value)])%list.
Proof.
  induction o as [|[k v] o IH]; simpl; [reflexivity|].
  intro H. apply andb_prop in H as [Hk Ho].
  apply ltb_compare in Hk.
  rewrite String.compare_antisym, Hk. simpl. rewrite (IH Ho). reflexivity.
Qed.

Lemma parse_object_loop_members (l : list (string * JsonValue)) :
  Forall (fun it => parses (snd it)) l ->
  JsonObject.well_formed l = true ->
  forall obj fuel rest,
    l <> [] ->
    forallb (fun it => keys_below (fst it) obj) l = true ->
    (3 * length (separated member_tokens l) <= fuel)%nat ->
    parse_object_loop fuel obj
      (separated member_tokens l ++ mkJsonToken JsonTokenObjectEnd "}" :: rest)
    = Normal ((obj ++ map (fun it => (fst it, reread (snd it))) l)%list,
              mkJsonToken JsonTokenObjectEnd "}" :: rest).
Proof.
  induction 1 as [|[key member] l Hit Hl IH]; intros Hwf obj fuel rest Hne Hbelow Hfuel;
    [congruence|].
  cbn [JsonObject.well_formed] in Hwf. apply andb_prop in Hwf as [Hkey Hwf].
  cbn [forallb fst] in Hbelow. apply andb_prop in Hbelow as [Hk Hbelow].
  cbn [separated] in *. unfold parses in Hit. cbn [snd] in Hit.
  change (member_tokens (key, member))
    with (mkJsonToken JsonTokenString key :: mkJsonToken JsonTokenAssign ":"
            :: tokens_of member) in *.
  rewrite !length_app in Hfuel. cbn [length] in Hfuel.
  destruct fuel as [|fuel]; [lia|].
  rewrite <- ?app_assoc. cbn [app].
  cbn [parse_object_loop processToken token_type token_value
         JsonTokenType_eqb negb andb tl].
  rewrite <- ?app_assoc.
  rewrite (Hit fuel) by lia.
  rewrite (find_keys_below _ _ Hk), (insert_keys_below _ _ _ Hk).
  destruct l as [|it' l'].
  - cbn [separated app map]. cbn. reflexivity.
  - cbn [app]. cbn [processToken token_type JsonTokenType_eqb negb andb tl].
    assert (Hnext : forall ts : list JsonToken,
               (separated member_tokens (it' :: l') ++ ts)%list <> []).
    { intro ts. cbn [separated member_tokens app]. discriminate. }
    destruct (separated member_tokens (it' :: l')
                ++ mkJsonToken JsonTokenObjectEnd "}" :: rest)%list eqn:E;
      [apply Hnext in E; contradiction|].
    rewrite <- E. cbn [negb].
    rewrite (IH Hwf); [| discriminate | | lia].
    + cbn [map fst snd]. rewrite <- app_assoc. reflexivity.
    + clear -Hkey Hbelow. revert Hkey Hbelow.
      generalize (it' :: l'). intro l.
      induction l as [|it l IHl]; [reflexivity|].
      cbn [forallb]. intros Hkey Hbelow.
      apply andb_prop in Hkey as [H1 H2].
      apply andb_prop in Hbelow as [H3 H4].
      rewrite (IHl H2 H4), andb_true_r.
      unfold keys_below in *. rewrite forallb_app. cbn [forallb fst].
      rewrite H3, H1. reflexivity.
Qed.

Lemma parseArray_loop_elements (l : list JsonValue) :
  Forall parses l ->
  forall array fuel rest,
    l <> [] ->
    (3 * length (separated tokens_of l) + 1 <= fuel)%nat ->
    parseArray_loop fuel array
      (separated tokens_of l ++ mkJsonToken JsonTokenArrayEnd "]" :: rest)
    = Normal ((array ++ map reread l)%list,
              mkJsonToken JsonTokenArrayEnd "]" :: rest).
Proof.
  induction 1 as [|element l Hit Hl IH]; intros array fuel rest Hne Hfuel;
    [congruence|].
  cbn [separated] in *.
  rewrite !length_app in Hfuel.
  destruct fuel as [|fuel]; [lia|].
  rewrite <- ?app_assoc.
  cbn [parseArray_loop].
  rewrite (Hit fuel) by lia.
  unfold JsonArray.pushBack.
  destruct l as [|it' l'].
  - cbn [separated app map]. cbn. reflexivity.
  - cbn [app]. cbn [processToken token_type JsonTokenType_eqb negb andb tl].
    assert (Hnext : forall ts : list JsonToken,
               (separated tokens_of (it' :: l') ++ ts)%list <> []).
    { intro ts. cbn [separated]. destruct it' as [? ? ? ? ? ? ? []];
        cbn [tokens_of app]; discriminate. }
    destruct (separated tokens_of (it' :: l')
                ++ mkJsonToken JsonTokenArrayEnd "]" :: rest)%list eqn:E;
      [apply Hnext in E; contradiction|].
    rewrite <- E. cbn [negb].
    rewrite IH; [| discriminate | cbn [length] in Hfuel; lia].
    cbn [map]. rewrite <- app_assoc. reflexivity.
Qed.

Lemma parse_tokens_tree (v : JsonValue) :
  round_trip_tree v = true -> parses v.
Proof.
  induction v as [number integer64 uint64 boolean str object array type
                    IHo IHa] using JsonValue_induction.
  intros Hv fuel rest Hfuel.
  destruct type; cbn [round_trip_tree] in Hv; try discriminate;
    cbn [tokens_of length] in Hfuel; cbn [tokens_of reread];
    (destruct fuel as [|fuel]; [lia|]); try reflexivity;
    try (destruct boolean; reflexivity).
  - (* VObject *)
    apply andb_prop in Hv as [Hv Hall]. apply andb_prop in Hv as [Hne Hwf].
    destruct object as [|[key member] object0]; [discriminate|].
    set (l := (key, member) :: object0) in *.
    change (fun it : string * JsonValue =>
              mkJsonToken JsonTokenString (fst it)
                :: mkJsonToken JsonTokenAssign ":" :: tokens_of (snd it))
      with member_tokens in *.
    rewrite length_app in Hfuel. cbn [length] in Hfuel.
    destruct fuel as [|[|fuel]]; try lia.
    assert (Hloop :
              parse_object_loop fuel []
                (separated member_tokens l
                   ++ mkJsonToken JsonTokenObjectEnd "}" :: rest)
              = Normal (map (fun it => (fst it, reread (snd it))) l,
                        mkJsonToken JsonTokenObjectEnd "}" :: rest)).
    { apply (parse_object_loop_members l); try assumption.
      - clear -Hall IHo. induction IHo as [|it l' Hit _ IH]; constructor.
        + apply Hit. simpl in Hall. apply andb_prop in Hall as [Hall _].
          apply andb_prop in Hall as [_ Hall]. exact Hall.
        + apply IH. simpl in Hall. apply andb_prop in Hall as [_ Hall].
          exact Hall.
      - discriminate.
      - clear. induction l; simpl; auto.
      - lia. }
    assert (Hhd : exists ts',
               (separated member_tokens l
                  ++ mkJsonToken JsonTokenObjectEnd "}" :: rest)%list
               = mkJsonToken JsonTokenString key :: ts')
      by (eexists; reflexivity).
    destruct Hhd as [ts' Hhd].
    cbn [app]. rewrite <- app_assoc. cbn [app].
    cbn [parse_value token_type parseObject parse_object processToken
           JsonTokenType_eqb negb andb tl].
    rewrite Hhd in *.
    cbn [current_type_differs token_type JsonTokenType_eqb negb andb].
    change (getObject (setType VObject JsonValue.default)) with (@nil (string * JsonValue)).
    rewrite Hloop.
    reflexivity.
  - (* VArray *)
    apply andb_prop in Hv as [Hfirst Hall].
    destruct array as [|first array0]; [discriminate|].
    set (l := first :: array0) in *.
    rewrite length_app in Hfuel. cbn [length] in Hfuel.
    destruct fuel as [|fuel]; try lia.
    assert (Hloop :
              parseArray_loop fuel []
                (separated tokens_of l
                   ++ mkJsonToken JsonTokenArrayEnd "]" :: rest)
              = Normal (map reread l,
                        mkJsonToken JsonTokenArrayEnd "]" :: rest)).
    { apply (parseArray_loop_elements l).
      - clear -Hall IHa. induction IHa as [|it l' Hit _ IH]; constructor.
        + apply Hit. simpl in Hall. apply andb_prop in Hall as [Hall _].
          exact Hall.
        + apply IH. simpl in Hall. apply andb_prop in Hall as [_ Hall].
          exact Hall.
      - discriminate.
      - lia. }
    assert (Hhd : exists t ts',
               (separated tokens_of l
                  ++ mkJsonToken JsonTokenArrayEnd "]" :: rest)%list
               = t :: ts'
               /\ JsonTokenType_eqb (token_type t) JsonTokenArrayStart = false).
    { subst l. cbn [separated]. apply negb_true_iff in Hfirst.
      destruct first as [? ? ? ? ? ? ? []]; cbn [_type] in Hfirst;
        try discriminate; cbn [tokens_of app]; eexists; eexists;
        (split; [reflexivity|reflexivity]). }
    destruct Hhd as [t [ts' [Hhd Ht]]].
    cbn [app]. rewrite <- app_assoc. cbn [app].
    cbn [parse_value token_type parseArray processToken
           JsonTokenType_eqb negb andb tl].
    rewrite Hhd in *.
    cbn [current_type_differs negb andb]. rewrite Ht. cbn [negb].
    change (getArray (setType VArray JsonValue.default)) with (@nil JsonValue).
    rewrite Hloop.
    reflexivity.
Qed.

Lemma parse_tokens (v : JsonValue) : round_trippable v = true -> parses v.
Proof. intro Hv. apply parse_tokens_tree, round_trippable_tree, Hv. Qed.



(** ** Integers as doubles *)



















(** *** Decimal numerals *)

















(** ** The round trip *)

Lemma read_write_tree (v : JsonValue) :
  round_trip_tree v = true ->
  read (write v) JsonValue.default = Normal (reread v).
Proof.
  intro Hv. unfold read. rewrite (scan_write_tree v Hv). unfold parse.
  pose proof (parse_tokens_tree v Hv (parse_fuel (tokens_of v)) []) as H.
  rewrite app_nil_r in H. rewrite H; [reflexivity|].
  unfold parse_fuel. lia.
Qed.

Lemma read_write (v : JsonValue) :
  round_trippable v = true ->
  read (write v) JsonValue.default = Normal (reread v).
Proof. intro Hv. apply read_write_tree, round_trippable_tree, Hv. Qed.











(** * Further properties of the value model *)

(** ** JsonObject: insertion, lookup and erasure *)

Lemma ltb_trans (a b c : string) :
  String.ltb a b = true -> String.ltb b c = true -> String.ltb a c = true.
Proof.
  unfold String.ltb.
  destruct (String.compare a b) eqn:Hab; try discriminate.
  destruct (String.compare b c) eqn:Hbc; try discriminate.
  intros _ _.
  assert (H : OrdersEx.String_as_OT.lt a c).
  { transitivity b; assumption. }
  unfold OrdersEx.String_as_OT.lt in H.
  change (String.compare a c = Lt) in H. rewrite H. reflexivity.
Qed.

Lemma compare_eqb (a b : string) :
  String.eqb a b = match String.compare a b with Eq => true | _ => false end.
Proof.
  destruct (String.eqb_spec a b) as [->|Hne].
  - destruct (String.compare b b) eqn:H; try reflexivity;
      pose proof (String.compare_antisym b b) as Ha; rewrite H in Ha;
      discriminate.
  - destruct (String.compare a b) eqn:H; try reflexivity.
    apply String.compare_eq_iff in H. contradiction.
Qed.

Lemma compare_Gt_ltb (a b : string) :
  String.compare a b = Gt -> String.ltb b a = true.
Proof.
  intros H. unfold String.ltb. rewrite String.compare_antisym, H. reflexivity.
Qed.

Lemma ltb_eqb (a b : string) :
  String.ltb a b = true -> String.eqb a b = false.
Proof.
  intros H. apply ltb_compare in H. rewrite compare_eqb, H. reflexivity.
Qed.

Lemma insert_find (key key' : string) (value : JsonValue) (o : JsonObject) :
  JsonObject.find key' (JsonObject.insert key value o)
  = if String.eqb key' key then Some value else JsonObject.find key' o.
Proof.
  induction o as [|[k v] o IH]; cbn [JsonObject.insert JsonObject.find].
  - reflexivity.
  - destruct (String.compare key k) eqn:Hc; cbn [JsonObject.find].
    + apply String.compare_eq_iff in Hc. subst k.
      destruct (String.eqb key' key); reflexivity.
    + reflexivity.
    + rewrite IH.
      destruct (String.eqb_spec key' k) as [->|Hne]; [|reflexivity].
      rewrite compare_eqb, String.compare_antisym, Hc. reflexivity.
Qed.

Lemma insert_keys_above (key : string) (value : JsonValue) (o : JsonObject)
  (k : string) :
  String.ltb k key = true ->
  forallb (fun entry => String.ltb k (fst entry)) o = true ->
  forallb (fun entry => String.ltb k (fst entry)) (JsonObject.insert key value o)
  = true.
Proof.
  intros Hk. induction o as [|[k1 v1] o IH]; cbn [JsonObject.insert forallb fst].
  - intros _. rewrite Hk. reflexivity.
  - intros H. apply andb_true_iff in H as [H1 H2].
    destruct (String.compare key k1); cbn [forallb fst];
      rewrite ?Hk, ?H1, ?H2, ?IH; auto.
Qed.

Lemma find_above (key : string) (o : JsonObject) :
  forallb (fun entry => String.ltb key (fst entry)) o = true ->
  JsonObject.find key o = None.
Proof.
  induction o as [|[k v] o IH]; cbn [forallb JsonObject.find fst]; [reflexivity|].
  intros H. apply andb_true_iff in H as [H1 H2].
  rewrite (ltb_eqb _ _ H1). auto.
Qed.

(** [insert] keeps the entries in key order, and adds an entry exactly
    when the key is new. *)
Lemma insert_shape (key : string) (value : JsonValue) (o : JsonObject) :
  JsonObject.well_formed o = true ->
  JsonObject.well_formed (JsonObject.insert key value o) = true /\
  JsonObject.size (JsonObject.insert key value o)
  = match JsonObject.find key o with
    | Some _ => JsonObject.size o
    | None => S (JsonObject.size o)
    end.
Proof.
  unfold JsonObject.size.
  induction o as [|[k v] o IH];
    cbn [JsonObject.insert JsonObject.well_formed JsonObject.find length].
  - intros _. split; reflexivity.
  - intros H. apply andb_true_iff in H as [Hk Hwf].
    rewrite compare_eqb.
    destruct (String.compare key k) eqn:Hc;
      cbn [JsonObject.well_formed forallb fst length].
    + apply String.compare_eq_iff in Hc. subst k. rewrite Hk, Hwf.
      split; reflexivity.
    + assert (Hlt : String.ltb key k = true)
        by (unfold String.ltb; rewrite Hc; reflexivity).
      assert (Hall : forallb (fun entry => String.ltb key (fst entry)) o
                     = true).
      { rewrite forallb_forall in *. intros e He.
        apply (ltb_trans key k); auto. }
      rewrite Hlt, Hk, Hwf, Hall, (find_above _ _ Hall).
      split; reflexivity.
    + destruct (IH Hwf) as [IH1 IH2]. rewrite IH1, IH2.
      rewrite insert_keys_above; auto using compare_Gt_ltb.
      split; [reflexivity | destruct (JsonObject.find key o); reflexivity].
Qed.

Lemma erase_cons (it : nat) (e : string * JsonValue) (o : JsonObject) :
  JsonObject.erase (S it) (e :: o)
  = match JsonObject.erase it o with
    | Some o' => Some (e :: o')
    | None => None
    end.
Proof.
  unfold JsonObject.erase. cbn [length firstn skipn].
  change (S it <? S (length o))%nat with (it <? length o)%nat.
  destruct (it <? length o)%nat; reflexivity.
Qed.

(** Whatever the object, [find] after [insert(key, value)] gives [value]
    under [key] and what it gave before under every other key; [get(key)]
    then returns [value], and the object is not empty. *)
Theorem JsonObject_insert_find (key key' : string) (value : JsonValue)
  (o : JsonObject) :
  JsonObject.find key' (JsonObject.insert key value o)
  = (if String.eqb key' key then Some value else JsonObject.find key' o) /\
  JsonObject.get key (JsonObject.insert key value o) = Ok value /\
  JsonObject.empty (JsonObject.insert key value o) = false.
Proof.
  split; [apply insert_find|]. split.
  - unfold JsonObject.get. rewrite insert_find, String.eqb_refl. reflexivity.
  - destruct o as [|[k v] o]; cbn [JsonObject.insert]; [reflexivity|].
    destruct (String.compare key k); reflexivity.
Qed.

(** On an object whose entries are in key order, [insert] keeps them in
    key order; it replaces the value of a key that is present, without a
    second entry, and adds one entry for a new key; erasing at [find(key)]
    after the insertion of a new key gives the object back. *)
Theorem JsonObject_insert_well_formed (key : string) (value : JsonValue)
  (o : JsonObject) :
  JsonObject.well_formed o = true ->
  JsonObject.well_formed (JsonObject.insert key value o) = true /\
  JsonObject.size (JsonObject.insert key value o)
  = match JsonObject.find key o with
    | Some _ => JsonObject.size o
    | None => S (JsonObject.size o)
    end /\
  (JsonObject.find key o = None ->
   JsonObject.erase
     (JsonObject.find_iterator key (JsonObject.insert key value o))
     (JsonObject.insert key value o) = Some o).
Proof.
  intro Hwf. destruct (insert_shape key value o Hwf) as [H1 H2].
  split; [exact H1|]. split; [exact H2|]. clear.
  induction o as [|[k v] o IH];
    cbn [JsonObject.insert JsonObject.find JsonObject.find_iterator].
  - intros _. rewrite String.eqb_refl. reflexivity.
  - rewrite compare_eqb.
    destruct (String.compare key k) eqn:Hc; [discriminate| |].
    + intros _. cbn [JsonObject.find_iterator]. rewrite String.eqb_refl.
      reflexivity.
    + intro Hf. cbn [JsonObject.find_iterator].
      rewrite compare_eqb, Hc, erase_cons, (IH Hf). reflexivity.
Qed.

Lemma JsonObject_insert_well_formed_witness :
  JsonObject.well_formed [("a", JsonValue.default); ("c", JsonValue.default)]
  = true /\
  JsonObject.insert "b" (JsonValue.of_bool true)
    [("a", JsonValue.default); ("c", JsonValue.default)]
  = [("a", JsonValue.default); ("b", JsonValue.of_bool true);
     ("c", JsonValue.default)] /\
  JsonObject.well_formed
    (JsonObject.insert "b" (JsonValue.of_bool true)
       [("a", JsonValue.default); ("c", JsonValue.default)]) = true.
Proof.
  split; [reflexivity|]. split; [reflexivity|].
  apply (JsonObject_insert_well_formed "b" (JsonValue.of_bool true)
           [("a", JsonValue.default); ("c", JsonValue.default)]).
  reflexivity.
Defined.

(** [operator[]] never throws: after it [get] finds the key and returns
    the value that [operator[]] referred to, and the other keys are as
    before.  Where [get] returns, [operator[]] gives the same value and
    leaves the object as it was; where [get] throws std::out_of_range,
    whose message names the key up to its first NUL, [operator[]] has
    entered the key with a default [JsonValue]. *)
Theorem JsonObject_operator_subscript_get (key : string) (o : JsonObject) :
  let (v, o') := JsonObject_operator_subscript key o in
  JsonObject.get key o' = Ok v /\
  (forall key', String.eqb key' key = false ->
                JsonObject.find key' o' = JsonObject.find key' o) /\
  match JsonObject.get key o with
  | Ok v0 => v = v0 /\ o' = o
  | Error e =>
      e = out_of_range
            ("no element '" ++ c_str key ++ "' found in caontainer")
      /\ v = JsonValue.default
      /\ o' = JsonObject.insert key JsonValue.default o
  end.
Proof.
  unfold JsonObject_operator_subscript, JsonObject.get.
  destruct (JsonObject.find key o) as [v0|] eqn:Hf.
  - rewrite Hf. repeat split; reflexivity.
  - rewrite insert_find, String.eqb_refl.
    repeat split; try reflexivity.
    intros key' Hne. rewrite insert_find, Hne. reflexivity.
Qed.

(** On an object whose entries are in key order, [erase(find(key))] for a
    key that is present removes that key and no other: [find(key)] points
    to the entry of the key, the key is not found afterwards, the other
    keys keep their values, the entries stay in key order and there is one
    entry less.  Erasing the range from an iterator to the next one does
    the same, and erasing from [begin()] to [end()] is [clear()]. *)
Theorem JsonObject_erase_find (key : string) (value : JsonValue)
  (o : JsonObject) :
  JsonObject.well_formed o = true ->
  JsonObject.find key o = Some value ->
  nth_error o (JsonObject.find_iterator key o) = Some (key, value) /\
  JsonObject.erase_range (JsonObject.find_iterator key o)
    (S (JsonObject.find_iterator key o)) o
  = JsonObject.erase (JsonObject.find_iterator key o) o /\
  JsonObject.erase_range 0 (JsonObject.size o) o
  = Some (JsonObject.clear o) /\
  exists o',
    JsonObject.erase (JsonObject.find_iterator key o) o = Some o' /\
    JsonObject.find key o' = None /\
    (forall key', String.eqb key' key = false ->
                  JsonObject.find key' o' = JsonObject.find key' o) /\
    JsonObject.well_formed o' = true /\
    S (JsonObject.size o') = JsonObject.size o.
Proof.
  unfold JsonObject.size. intros Hwf Hf.
  assert (Hnth : nth_error o (JsonObject.find_iterator key o)
                 = Some (key, value)).
  { clear Hwf. induction o as [|[k v] o IH];
      cbn [JsonObject.find JsonObject.find_iterator] in *; [discriminate|].
    destruct (String.eqb_spec key k) as [->|Hne]; cbn [nth_error];
      [congruence|auto]. }
  split; [exact Hnth|]. split; [|split].
  - assert (Hlt : (JsonObject.find_iterator key o < length o)%nat)
      by (apply nth_error_Some; congruence).
    unfold JsonObject.erase_range, JsonObject.erase.
    destruct (Nat.ltb_spec (JsonObject.find_iterator key o) (length o));
      [|lia].
    destruct (Nat.leb_spec (JsonObject.find_iterator key o)
                (S (JsonObject.find_iterator key o))); [|lia].
    destruct (Nat.leb_spec (S (JsonObject.find_iterator key o)) (length o));
      [reflexivity|lia].
  - unfold JsonObject.erase_range, JsonObject.clear.
    rewrite Nat.leb_refl, skipn_all. reflexivity.
  - clear Hnth. revert Hwf Hf.
    induction o as [|[k v] o IH];
      cbn [JsonObject.find JsonObject.find_iterator JsonObject.well_formed];
      [discriminate|].
    intros Hwf Hf. apply andb_true_iff in Hwf as [Hk Hwf].
    destruct (String.eqb_spec key k) as [->|Hne].
    + exists o. unfold JsonObject.erase. cbn.
      repeat split; auto using find_above.
      intros key' Hne. rewrite Hne. reflexivity.
    + destruct (IH Hwf Hf) as (o' & He & Hnone & Hother & Hwf' & Hsize).
      exists ((k, v) :: o'). rewrite erase_cons, He.
      cbn [JsonObject.find JsonObject.well_formed length].
      apply String.eqb_neq in Hne. rewrite Hne, Hnone, Hwf', Hsize.
      repeat split; auto.
      * intros key' Hne'. rewrite Hother; auto.
      * apply andb_true_iff; split; [|reflexivity].
        rewrite forallb_forall in *. intros e Hin. apply Hk.
        clear - He Hin. unfold JsonObject.erase in He.
        destruct (JsonObject.find_iterator key o <? length o)%nat;
          [|discriminate].
        injection He as <-. apply in_app_or in Hin as [Hin|Hin].
        -- rewrite <- (firstn_skipn (JsonObject.find_iterator key o) o).
           apply in_or_app. left. assumption.
        -- rewrite <- (firstn_skipn (S (JsonObject.find_iterator key o)) o).
           apply in_or_app. right. assumption.
Qed.

Lemma JsonObject_erase_find_witness :
  JsonObject.well_formed
    [("a", JsonValue.default); ("b", JsonValue.of_bool true);
     ("c", JsonValue.default)] = true /\
  JsonObject.find "b"
    [("a", JsonValue.default); ("b", JsonValue.of_bool true);
     ("c", JsonValue.default)] = Some (JsonValue.of_bool true) /\
  JsonObject.erase
    (JsonObject.find_iterator "b"
       [("a", JsonValue.default); ("b", JsonValue.of_bool true);
        ("c", JsonValue.default)])
    [("a", JsonValue.default); ("b", JsonValue.of_bool true);
     ("c", JsonValue.default)]
  = Some [("a", JsonValue.default); ("c", JsonValue.default)] /\
  nth_error
    [("a", JsonValue.default); ("b", JsonValue.of_bool true);
     ("c", JsonValue.default)]
    (JsonObject.find_iterator "b"
       [("a", JsonValue.default); ("b", JsonValue.of_bool true);
        ("c", JsonValue.default)])
  = Some ("b", JsonValue.of_bool true).
Proof.
  split; [reflexivity|]. split; [reflexivity|]. split; [reflexivity|].
  apply (JsonObject_erase_find "b" (JsonValue.of_bool true)
           [("a", JsonValue.default); ("b", JsonValue.of_bool true);
            ("c", JsonValue.default)]); reflexivity.
Defined.

(** ** JsonArray: pushBack, insert and erase *)

Lemma at_in_range (a : JsonArray) (pos : nat) (v : JsonValue) :
  nth_error a pos = Some v -> JsonArray.at_ a pos = Ok v.
Proof.
  intros H. unfold JsonArray.at_, JsonArray.bound_check_rejects,
    JsonArray.vector_at.
  assert (Hlt : (pos < length a)%nat) by (apply nth_error_Some; congruence).
  destruct (Nat.ltb_spec (length a) pos); [lia|]. rewrite H. reflexivity.
Qed.

(** [pushBack] adds one element at the end: the size grows by one, [at]
    and [operator[]] give the new element at the old size and, below it,
    what they gave before. *)
Theorem JsonArray_pushBack_at (a : JsonArray) (value : JsonValue) :
  JsonArray.size (JsonArray.pushBack value a) = S (JsonArray.size a) /\
  JsonArray.at_ (JsonArray.pushBack value a) (JsonArray.size a) = Ok value /\
  JsonArray.operator_subscript (JsonArray.pushBack value a) (JsonArray.size a)
  = Some value /\
  (forall pos, (pos < JsonArray.size a)%nat ->
     JsonArray.at_ (JsonArray.pushBack value a) pos = JsonArray.at_ a pos /\
     JsonArray.operator_subscript (JsonArray.pushBack value a) pos
     = JsonArray.operator_subscript a pos).
Proof.
  unfold JsonArray.size, JsonArray.pushBack, JsonArray.operator_subscript.
  assert (Hlast : nth_error (a ++ [value]) (length a) = Some value).
  { rewrite nth_error_app2, Nat.sub_diag; [reflexivity | lia]. }
  repeat split.
  - rewrite length_app. cbn. lia.
  - apply at_in_range. assumption.
  - assumption.
  - destruct (nth_error a pos) as [v|] eqn:Hn.
    + rewrite (at_in_range a pos v Hn). apply at_in_range.
      rewrite nth_error_app1; assumption.
    + apply nth_error_None in Hn. lia.
  - apply nth_error_app1. assumption.
Qed.

(** [insert(pos, value)] at an iterator of the array puts [value] at
    [pos] and returns [pos]: the size grows by one, the elements before
    [pos] stay and those from [pos] on move up by one; [erase] at the
    iterator returned (or of the range from it to the next one) gives the
    array back, and erasing from [begin()] to [end()] is [clear()]. *)
Theorem JsonArray_insert_erase (a : JsonArray) (pos : nat)
  (value : JsonValue) :
  (pos <= JsonArray.size a)%nat ->
  JsonArray.erase_range 0 (JsonArray.size a) a
  = Some (JsonArray.clear a, O) /\
  exists a',
    JsonArray.insert pos value a = Some (a', pos) /\
    JsonArray.size a' = S (JsonArray.size a) /\
    JsonArray.at_ a' pos = Ok value /\
    (forall i, (i < pos)%nat -> JsonArray.at_ a' i = JsonArray.at_ a i) /\
    (forall i, (pos <= i < JsonArray.size a)%nat ->
               JsonArray.at_ a' (S i) = JsonArray.at_ a i) /\
    JsonArray.erase pos a' = Some (a, pos) /\
    JsonArray.erase_range pos (S pos) a' = Some (a, pos).
Proof.
  unfold JsonArray.size. intros Hpos. split.
  { unfold JsonArray.erase_range, JsonArray.clear.
    rewrite Nat.leb_refl, skipn_all. reflexivity. }
  exists (firstn pos a ++ value :: skipn pos a)%list.
  assert (Hlen : length (firstn pos a) = pos)
    by (rewrite length_firstn; lia).
  assert (Hsize : length (firstn pos a ++ value :: skipn pos a) = S (length a)).
  { rewrite length_app. cbn [length]. rewrite length_skipn, Hlen. lia. }
  assert (Hfirst : firstn pos (firstn pos a ++ value :: skipn pos a)
                   = firstn pos a).
  { rewrite firstn_app, Hlen, Nat.sub_diag, firstn_0, app_nil_r.
    rewrite <- Hlen at 1. apply firstn_all. }
  assert (Hskip : skipn (S pos) (firstn pos a ++ value :: skipn pos a)
                  = skipn pos a).
  { rewrite skipn_app, Hlen.
    rewrite (skipn_all2 (n := S pos) (firstn pos a)) by lia.
    replace (S pos - pos)%nat with 1%nat by lia. reflexivity. }
  repeat split.
  - unfold JsonArray.insert.
    destruct (Nat.leb_spec pos (length a)); [reflexivity|lia].
  - assumption.
  - apply at_in_range. rewrite nth_error_app2, Hlen, Nat.sub_diag; [|lia].
    reflexivity.
  - intros i Hi.
    destruct (nth_error a i) as [v|] eqn:Hn.
    + rewrite (at_in_range a i v Hn). apply at_in_range.
      rewrite nth_error_app1, nth_error_firstn by lia.
      destruct (Nat.ltb_spec i pos); [assumption|lia].
    + apply nth_error_None in Hn. lia.
  - intros i Hi.
    destruct (nth_error a i) as [v|] eqn:Hn.
    + rewrite (at_in_range a i v Hn). apply at_in_range.
      rewrite nth_error_app2, Hlen by lia.
      replace (S i - pos)%nat with (S (i - pos)) by lia. cbn [nth_error].
      rewrite nth_error_skipn. replace (pos + (i - pos))%nat with i by lia.
      assumption.
    + apply nth_error_None in Hn. lia.
  - unfold JsonArray.erase. rewrite Hsize, Hfirst, Hskip, firstn_skipn.
    destruct (Nat.ltb_spec pos (S (length a))); [reflexivity|lia].
  - unfold JsonArray.erase_range. rewrite Hsize, Hfirst, Hskip, firstn_skipn.
    destruct (Nat.leb_spec pos (S pos)); [|lia].
    destruct (Nat.leb_spec (S pos) (S (length a))); [reflexivity|lia].
Qed.

Lemma JsonArray_insert_erase_witness :
  (1 <= JsonArray.size [JsonValue.of_bool true; JsonValue.of_bool false])%nat
  /\
  JsonArray.insert 1 JsonValue.default
    [JsonValue.of_bool true; JsonValue.of_bool false]
  = Some ([JsonValue.of_bool true; JsonValue.default; JsonValue.of_bool false],
          1%nat) /\
  exists a',
    JsonArray.insert 1 JsonValue.default
      [JsonValue.of_bool true; JsonValue.of_bool false] = Some (a', 1%nat) /\
    JsonArray.size a'
    = S (JsonArray.size [JsonValue.of_bool true; JsonValue.of_bool false]) /\
    JsonArray.at_ a' 1 = Ok JsonValue.default /\
    (forall i, (i < 1)%nat ->
       JsonArray.at_ a' i
       = JsonArray.at_ [JsonValue.of_bool true; JsonValue.of_bool false] i) /\
    (forall i,
       (1 <= i
        < JsonArray.size [JsonValue.of_bool true; JsonValue.of_bool false])%nat ->
       JsonArray.at_ a' (S i)
       = JsonArray.at_ [JsonValue.of_bool true; JsonValue.of_bool false] i) /\
    JsonArray.erase 1 a'
    = Some ([JsonValue.of_bool true; JsonValue.of_bool false], 1%nat) /\
    JsonArray.erase_range 1 2 a'
    = Some ([JsonValue.of_bool true; JsonValue.of_bool false], 1%nat).
Proof.
  split; [cbn; lia|]. split; [reflexivity|].
  apply (JsonArray_insert_erase
           [JsonValue.of_bool true; JsonValue.of_bool false] 1
           JsonValue.default).
  cbn. lia.
Defined.

(** ** JsonValue: the setters *)

(** A setter stores its argument in its own field and leaves the tag and
    the other fields: the getter returns the argument, but the conversion
    operator of the field returns it only on a value that carries the
    matching tag already, and throws std::bad_cast on the others;
    [setType] changes the tag alone.  So a value changes its kind only
    through [setType] and the setter together, as the parser does. *)
Theorem setters_keep_tag (v : JsonValue) :
  (forall x,
     getType (setNumber x v) = getType v /\ getDouble (setNumber x v) = x /\
     getInt (setNumber x v) = double_to_int x /\
     operator_double (setNumber x v)
     = (if DataType_eqb (getType v) VDouble then Ok x else Error bad_cast) /\
     operator_double (setNumber x (setType VDouble v)) = Ok x) /\
  (forall x,
     getType (setInt64 x v) = getType v /\ getInt64 (setInt64 x v) = x /\
     operator_int64_t (setInt64 x v)
     = (if DataType_eqb (getType v) VInt64 then Ok x else Error bad_cast)) /\
  (forall x,
     getType (setUint64 x v) = getType v /\ getUint64 (setUint64 x v) = x /\
     operator_uint64_t (setUint64 x v)
     = (if DataType_eqb (getType v) VUint64 then Ok x else Error bad_cast)) /\
  (forall x,
     getType (setBool x v) = getType v /\ getBool (setBool x v) = x /\
     operator_bool (setBool x v)
     = (if DataType_eqb (getType v) VBoolean then Ok x else Error bad_cast)) /\
  (forall x,
     getType (setString x v) = getType v /\ getString (setString x v) = x /\
     operator_string (setString x v)
     = (if DataType_eqb (getType v) VString then Ok x else Error bad_cast)) /\
  (forall x,
     getType (setObject x v) = getType v /\ getObject (setObject x v) = x /\
     operator_JsonObject (setObject x v)
     = (if DataType_eqb (getType v) VObject then Ok x else Error bad_cast)) /\
  (forall x,
     getType (setArray x v) = getType v /\ getArray (setArray x v) = x /\
     operator_JsonArray (setArray x v)
     = (if DataType_eqb (getType v) VArray then Ok x else Error bad_cast)) /\
  (forall type,
     getType (setType type v) = type /\
     getDouble (setType type v) = getDouble v /\
     getInt64 (setType type v) = getInt64 v /\
     getUint64 (setType type v) = getUint64 v /\
     getBool (setType type v) = getBool v /\
     getString (setType type v) = getString v /\
     getObject (setType type v) = getObject v /\
     getArray (setType type v) = getArray v).
Proof.
  destruct v as [number integer64 uint64 boolean str object array type].
  repeat split; destruct type; reflexivity.
Qed.

(** * Further properties of the reader *)

(** ** Reading a text in parts *)

Lemma scan_loop_tokens (fuel : nat) (pre : list JsonToken) :
  forall s acc,
    scan_loop fuel s (pre ++ acc)
    = after_tokens pre (scan_loop fuel s acc).
Proof.
  induction fuel as [|fuel IH]; intros s acc; cbn [scan_loop].
  - destruct (eos s); reflexivity.
  - destruct (eos s); [reflexivity|].
    destruct (scan_round s) as [[token s']|e]; [|reflexivity].
    rewrite <- app_assoc. apply IH.
Qed.

Lemma scan_after (p rest : string) (pre : list JsonToken) (k : nat) :
  (forall fuel, scan_loop (k + fuel) (p ++ rest) []
                = scan_loop fuel rest pre) ->
  scan (p ++ rest) = after_tokens pre (scan rest).
Proof.
  intros H. unfold scan.
  assert (Hpre : forall fuel, scan_loop fuel rest pre
                 = after_tokens pre (scan_loop fuel rest []))
    by (intro fuel; rewrite <- (app_nil_r pre) at 1; apply scan_loop_tokens).
  destruct (scan_loop (String.length rest) rest []) as [ts|e ts|] eqn:Hrest.
  - rewrite (scan_loop_enough (k + String.length rest) (p ++ rest) []).
    + rewrite H, Hpre, Hrest. reflexivity.
    + rewrite H, Hpre, Hrest. discriminate.
  - rewrite (scan_loop_enough (k + String.length rest) (p ++ rest) []).
    + rewrite H, Hpre, Hrest. reflexivity.
    + rewrite H, Hpre, Hrest. discriminate.
  - cbn [after_tokens].
    destruct (scan_loop (String.length (p ++ rest)) (p ++ rest) [])
      as [ts|e ts|] eqn:Hall; [exfalso|exfalso|reflexivity].
    all: assert (Hmore : scan_loop (k + String.length (p ++ rest)) (p ++ rest) []
                         <> Diverge)
        by (rewrite (scan_loop_more_fuel (String.length (p ++ rest)));
            [rewrite Hall; discriminate | rewrite Hall; discriminate | lia]).
    all: rewrite H, Hpre in Hmore.
    all: assert (Hr : scan_loop (String.length (p ++ rest)) rest [] <> Diverge)
        by (intro Hd; apply Hmore; rewrite Hd; reflexivity).
    all: apply scan_loop_enough in Hr as Hr'; rewrite Hrest in Hr'; congruence.
Qed.

Lemma read_read_tokens (text : string) (value : JsonValue) :
  read text value = read_tokens value (scan text).
Proof. reflexivity. Qed.


Lemma read_after (p rest : string) (pre : list JsonToken) (k : nat)
  (value : JsonValue) (o : outcome JsonValue) :
  (forall fuel, scan_loop (k + fuel) (p ++ rest) []
                = scan_loop fuel rest pre) ->
  (forall ts, read_tokens value (Normal (pre ++ ts)%list) = o) ->
  read (p ++ rest) value = unless_scan_fails rest value o.
Proof.
  intros Hscan Hparse.
  rewrite read_read_tokens, (scan_after p rest pre k Hscan).
  unfold unless_scan_fails.
  destruct (scan rest) as [ts|e ts|]; try reflexivity. apply Hparse.
Qed.

(** A text that starts with null or with undefined is read as the Empty
    value whatever follows, as long as what follows can be scanned: the
    tokens after the first value are never examined, and undefined is
    accepted like null. *)
Theorem read_null_prefix (rest : string) (value : JsonValue) :
  read ("null" ++ rest) value
  = unless_scan_fails rest value (Normal (setType VEmpty value)) /\
  read ("undefined" ++ rest) value
  = unless_scan_fails rest value (Normal (setType VEmpty value)).
Proof.
  split.
  - apply (read_after "null" rest [mkJsonToken JsonTokenEmpty ""] 1);
      [|reflexivity].
    intro fuel.
    apply (scan_loop_round fuel ("null" ++ rest) rest
             (mkJsonToken JsonTokenEmpty "") []); [discriminate|reflexivity].
  - apply (read_after "undefined" rest [mkJsonToken JsonTokenEmpty ""] 1);
      [|reflexivity].
    intro fuel.
    apply (scan_loop_round fuel ("undefined" ++ rest) rest
             (mkJsonToken JsonTokenEmpty "") []); [discriminate|reflexivity].
Qed.

(** A text that starts with two opening brackets, an array whose first
    element is an array, is rejected with Unexpected token: [ (unless the
    scan of the rest fails first): the loop of [parseArray] is not entered
    when the token after the bracket is another opening bracket.  The
    target is left tagged Array. *)
Theorem read_array_in_first_place (rest : string) (value : JsonValue) :
  read ("[[" ++ rest) value
  = unless_scan_fails rest value
      (Throw (ParserException "Unexpected token: [") (setType VArray value)).
Proof.
  apply (read_after "[[" rest
           [mkJsonToken JsonTokenArrayStart "[";
            mkJsonToken JsonTokenArrayStart "["] 2).
  - intro fuel.
    change (2 + fuel)%nat with (S (S fuel)).
    rewrite (scan_loop_round (S fuel) ("[[" ++ rest) ("[" ++ rest)
               (mkJsonToken JsonTokenArrayStart "[") []);
      [|discriminate|reflexivity].
    apply (scan_loop_round fuel ("[" ++ rest) rest
               (mkJsonToken JsonTokenArrayStart "[")); [discriminate|reflexivity].
  - intro ts. unfold read_tokens, parse, parse_fuel. cbn [app length].
    replace (3 * S (S (length ts)) + 3)%nat
      with (S (S (S (3 * length ts + 6)))) by lia.
    destruct value. reflexivity.
Qed.

(** A text that starts with a closing bracket, a comma or a colon is
    rejected with Unexpected token and that character (unless the scan of
    the rest fails first); the target is left as it was. *)
Theorem read_stray_token (c : ascii) (rest : string) (value : JsonValue) :
  In c ["}"; "]"; ","; ":"]%char ->
  read (String c rest) value
  = unless_scan_fails rest value
      (Throw (ParserException ("Unexpected token: " ++ String c "")) value).
Proof.
  intro Hc. cbn [In] in Hc.
  destruct Hc as [<-|[<-|[<-|[<-|[]]]]].
  - apply (read_after "}" rest [mkJsonToken JsonTokenObjectEnd "}"] 1);
      [|reflexivity].
    intro fuel.
    apply (scan_loop_round fuel ("}" ++ rest) rest
             (mkJsonToken JsonTokenObjectEnd "}") []);
      [discriminate|reflexivity].
  - apply (read_after "]" rest [mkJsonToken JsonTokenArrayEnd "]"] 1);
      [|reflexivity].
    intro fuel.
    apply (scan_loop_round fuel ("]" ++ rest) rest
             (mkJsonToken JsonTokenArrayEnd "]") []);
      [discriminate|reflexivity].
  - apply (read_after "," rest [mkJsonToken JsonTokenNext ","] 1);
      [|reflexivity].
    intro fuel.
    apply (scan_loop_round fuel ("," ++ rest) rest
             (mkJsonToken JsonTokenNext ",") []);
      [discriminate|reflexivity].
  - apply (read_after ":" rest [mkJsonToken JsonTokenAssign ":"] 1);
      [|reflexivity].
    intro fuel.
    apply (scan_loop_round fuel (":" ++ rest) rest
             (mkJsonToken JsonTokenAssign ":") []);
      [discriminate|reflexivity].
Qed.

Lemma read_stray_token_witness :
  In ","%char ["}"; "]"; ","; ":"]%char /\
  read (String "," "1") JsonValue.default
  = unless_scan_fails "1" JsonValue.default
      (Throw (ParserException ("Unexpected token: " ++ String "," ""))
             JsonValue.default).
Proof.
  split; [cbn; auto|].
  apply (read_stray_token "," "1" JsonValue.default). cbn. auto.
Defined.

(** [read] returns after the first complete value: when the text of a
    value is followed by a blank and any text that can be scanned, the
    value is read and what follows is ignored without an error. *)
Theorem read_first_document (v : JsonValue) (rest : string) :
  round_trippable v = true ->
  read (write v ++ String " " rest) JsonValue.default
  = unless_scan_fails rest JsonValue.default (Normal (reread v)).
Proof.
  intro Hv.
  assert (Hparse : forall ts,
            read_tokens JsonValue.default (Normal (tokens_of v ++ ts)%list)
            = Normal (reread v)).
  { intro ts. unfold read_tokens, parse.
    rewrite (parse_tokens v Hv); [reflexivity|].
    unfold parse_fuel. rewrite length_app. lia. }
  destruct rest as [|c rest].
  - unfold unless_scan_fails. cbn [scan String.length scan_loop eos].
    rewrite read_read_tokens.
    assert (Hscan : scan (write v ++ " ")
                    = Normal (tokens_of v ++ [mkJsonToken JsonTokenEmpty ""])%list).
    { unfold scan.
      rewrite (scan_loop_enough (length (tokens_of v) + 1)).
      - rewrite write_render, (scan_render v Hv 0 " " [] 1 eq_refl). reflexivity.
      - rewrite write_render, (scan_render v Hv 0 " " [] 1 eq_refl). discriminate. }
    rewrite Hscan. apply Hparse.
  - change (write v ++ String " " (String c rest))
      with (write v ++ (" " ++ String c rest)).
    rewrite <- append_assoc.
    apply (read_after (write v ++ " ") (String c rest) (tokens_of v)
             (length (tokens_of v))); [|exact Hparse].
    intro fuel. rewrite append_assoc, write_render.
    rewrite (scan_render v Hv 0 (" " ++ String c rest) [] fuel eq_refl).
    apply scan_loop_blank; [reflexivity|discriminate].
Qed.

Lemma read_first_document_witness :
  round_trippable sample_document = true /\
  read (write sample_document ++ String " " "]}")
    JsonValue.default
  = unless_scan_fails "]}" JsonValue.default
      (Normal (reread sample_document)).
Proof.
  split; [reflexivity|].
  apply (read_first_document sample_document "]}"). reflexivity.
Defined.

(** After white space, a character for which the switch of [scan] has no
    case makes [read] throw Unexpected start sequence with that character,
    whatever follows, and the target is left as it was. *)
Theorem read_unexpected_start (ws s : string) (c : ascii)
  (value : JsonValue) :
  all_chars isWhiteSpace ws = true ->
  starts_token c = false ->
  read (ws ++ String c s) value
  = Throw (ParserException (push_back "Unexpected start sequence: " c)) value.
Proof.
  intros Hws Hc.
  assert (Hround : scan_round (ws ++ String c s)
                   = Error (ParserException
                              (push_back "Unexpected start sequence: " c))).
  { unfold scan_round. rewrite (eatWhitespace_append ws _ Hws).
    unfold starts_token in Hc.
    apply orb_false_iff in Hc as [Hc Hdigit].
    apply orb_false_iff in Hc as [Hspace Hc].
    cbn [existsb] in Hc.
    repeat (apply orb_false_iff in Hc as [?H Hc]).
    cbn [eatWhitespace]. rewrite Hspace. cbn [peek].
    rewrite Hdigit. 
    repeat match goal with H : (c =? _)%char = false |- _ => rewrite H; clear H end.
    reflexivity. }
  unfold read, scan.
  assert (Hne : ws ++ String c s <> "") by (destruct ws; discriminate).
  destruct (ws ++ String c s) as [|c0 s0] eqn:E; [congruence|].
  cbn [String.length scan_loop eos]. rewrite Hround. reflexivity.
Qed.

Lemma read_unexpected_start_witness :
  all_chars isWhiteSpace " " = true /\
  starts_token "x" = false /\
  read (" " ++ String "x" "yz") (JsonValue.of_bool true)
  = Throw (ParserException (push_back "Unexpected start sequence: " "x"))
          (JsonValue.of_bool true).
Proof.
  split; [reflexivity|]. split; [reflexivity|].
  apply (read_unexpected_start " " "yz" "x"); reflexivity.
Defined.

(** ** Numbers are not checked *)

(** Every text that starts with a minus sign or a digit and is made of
    the characters of [getJsonNumber] (digits, point, e, E, minus, plus) is
    read as a number and never rejected, however the characters are
    arranged: the value is what the stream extraction makes of the text,
    tagged Int when its fractional part is zero. *)
Theorem read_number_unchecked (text : string) (value : JsonValue) :
  number_text text = true ->
  read text value
  = Normal (setNumber (stream_to_double text)
              (setType (if PrimFloat.eqb (fst (modf (stream_to_double text))) 0
                        then VInt else VDouble) value)).
Proof.
  intro Ht.
  assert (Hscan : scan text = Normal [mkJsonToken JsonTokenNumber text]).
  { unfold scan.
    assert (H1 : scan_loop 1 text []
                 = Normal [mkJsonToken JsonTokenNumber text]).
    { rewrite <- (append_nil_r text) at 1.
      rewrite (scan_loop_round 0 (text ++ "") ""
                 (mkJsonToken JsonTokenNumber text) []);
        [reflexivity| |apply (scan_round_number text "" Ht eq_refl)].
      destruct text; [discriminate Ht|discriminate]. }
    rewrite <- H1. apply scan_loop_enough. rewrite H1. discriminate. }
  unfold read. rewrite Hscan. cbn.
  destruct (PrimFloat.eqb _ 0); reflexivity.
Qed.

Lemma read_number_unchecked_witness :
  number_text "1.2.3" = true /\
  read "1.2.3" JsonValue.default
  = Normal (setNumber (stream_to_double "1.2.3")
              (setType (if PrimFloat.eqb
                              (fst (modf (stream_to_double "1.2.3"))) 0
                        then VInt else VDouble) JsonValue.default)).
Proof.
  split; [reflexivity|]. apply (read_number_unchecked "1.2.3"). reflexivity.
Defined.

(** ** Arrays *)

Lemma Forall_parses (l : list JsonValue) :
  forallb round_trippable l = true -> Forall parses l.
Proof.
  induction l as [|v l IH]; cbn [forallb]; constructor.
  - apply parse_tokens. apply andb_prop in H as [H _]. exact H.
  - apply IH. apply andb_prop in H as [_ H]. exact H.
Qed.

Lemma Forall_parses_tree (l : list JsonValue) :
  forallb round_trip_tree l = true -> Forall parses l.
Proof.
  induction l as [|v l IH]; cbn [forallb]; constructor.
  - apply parse_tokens_tree. apply andb_prop in H as [H _]. exact H.
  - apply IH. apply andb_prop in H as [_ H]. exact H.
Qed.

Lemma first_token (first : JsonValue) (ts : list JsonToken) :
  DataType_eqb (_type first) VArray = false ->
  exists t ts', (tokens_of first ++ ts)%list = t :: ts'
                /\ JsonTokenType_eqb (token_type t) JsonTokenArrayStart = false.
Proof.
  intro Hfirst.
  destruct first as [? ? ? ? ? ? ? []]; cbn [_type] in Hfirst;
    try discriminate; cbn [tokens_of app]; eexists; eexists;
    (split; [reflexivity|reflexivity]).
Qed.

(** [read] does not reset its target: the text of an array read into a
    value that holds elements already adds the new elements after them. *)
Theorem read_appends_to_array (l : list JsonValue) (value : JsonValue) :
  round_trippable (JsonValue.of_array l) = true ->
  read (write (JsonValue.of_array l)) value
  = Normal (setArray (getArray value ++ map reread l)%list
              (setType VArray value)).
Proof.
  intro Hv. unfold read. rewrite (scan_write _ Hv).
  cbn [round_trippable JsonValue.of_array] in Hv.
  apply andb_prop in Hv as [Hfirst Hall].
  destruct l as [|first l0]; [discriminate|].
  apply negb_true_iff in Hfirst.
  set (l := first :: l0) in *.
  unfold parse, parse_fuel. cbn [tokens_of JsonValue.of_array].
  cbn [length]. rewrite length_app. cbn [length].
  replace (3 * S (length (separated tokens_of l) + 1) + 3)%nat
    with (S (S (3 * length (separated tokens_of l) + 7))) by lia.
  destruct (first_token first
              (match l0 with [] => [] | _ => [mkJsonToken JsonTokenNext ","] end
               ++ separated tokens_of l0 ++ [mkJsonToken JsonTokenArrayEnd "]"])
              Hfirst) as [t [ts' [Hhd Ht]]].
  assert (Hsep : (separated tokens_of l ++ [mkJsonToken JsonTokenArrayEnd "]"])%list
                 = t :: ts').
  { subst l. cbn [separated]. rewrite <- !app_assoc. exact Hhd. }
  cbn [parse_value token_type parseArray processToken
         JsonTokenType_eqb negb andb tl].
  rewrite Hsep.
  cbn [current_type_differs negb andb]. rewrite Ht. cbn [negb].
  rewrite <- Hsep.
  rewrite (parseArray_loop_elements l (Forall_parses l Hall)
             (getArray (setType VArray value)) _ []);
    [| discriminate | lia].
  reflexivity.
Qed.

Lemma read_appends_to_array_witness :
  round_trippable
    (JsonValue.of_array [JsonValue.of_bool true; number_value VInt 7]) = true /\
  read (write (JsonValue.of_array [JsonValue.of_bool true; number_value VInt 7]))
    (JsonValue.of_array [JsonValue.of_string 0 0 "old"])
  = Normal (setArray
              (getArray (JsonValue.of_array [JsonValue.of_string 0 0 "old"])
                 ++ map reread [JsonValue.of_bool true; number_value VInt 7])%list
              (setType VArray
                 (JsonValue.of_array [JsonValue.of_string 0 0 "old"]))).
Proof.
  split; [reflexivity|].
  apply (read_appends_to_array [JsonValue.of_bool true; number_value VInt 7]).
  reflexivity.
Defined.

Lemma parseArray_loop_open (l : list JsonValue) :
  Forall parses l ->
  forall array fuel,
    l <> [] ->
    (3 * length (separated tokens_of l) + 1 <= fuel)%nat ->
    parseArray_loop fuel array (separated tokens_of l)
    = Normal ((array ++ map reread l)%list, []).
Proof.
  induction 1 as [|element l Hit Hl IH]; intros array fuel Hne Hfuel;
    [congruence|].
  cbn [separated] in *.
  rewrite !length_app in Hfuel.
  destruct fuel as [|fuel]; [lia|].
  cbn [parseArray_loop].
  rewrite (Hit fuel) by lia.
  unfold JsonArray.pushBack.
  destruct l as [|it' l'].
  - cbn [separated app map]. cbn. reflexivity.
  - cbn [app]. cbn [processToken token_type JsonTokenType_eqb negb andb tl].
    assert (Hnext : separated tokens_of (it' :: l') <> []).
    { cbn [separated]. destruct it' as [? ? ? ? ? ? ? []];
        cbn [tokens_of app]; discriminate. }
    destruct (separated tokens_of (it' :: l')) eqn:E; [contradiction|].
    cbn [negb].
    rewrite IH; [| discriminate | cbn [length] in Hfuel |- *; lia].
    cbn [map]. rewrite <- app_assoc. reflexivity.
Qed.

(** When the tokens end inside an array of one element at least, after
    an element, where the first element is not an array and the elements
    are trees of the round trip, [parse] throws Not compleated json data,
    and the target keeps the elements parsed before the end.  The two
    conditions are needed: where the first element is an array the second
    bracket is an unexpected token, and an empty object among the elements
    makes its closing brace one, before the end of the tokens is met. *)
Theorem parse_unterminated_array (l : list JsonValue) (value : JsonValue) :
  round_trip_tree (JsonValue.of_array l) = true ->
  parse value (mkJsonToken JsonTokenArrayStart "[" :: separated tokens_of l)
  = Throw (ParserException "Not compleated json data")
          (setArray (getArray value ++ map reread l)%list
             (setType VArray value), []) /\
  scan "[[1]"
  = Normal [mkJsonToken JsonTokenArrayStart "[";
            mkJsonToken JsonTokenArrayStart "[";
            mkJsonToken JsonTokenNumber "1";
            mkJsonToken JsonTokenArrayEnd "]"] /\
  parse value [mkJsonToken JsonTokenArrayStart "[";
               mkJsonToken JsonTokenArrayStart "[";
               mkJsonToken JsonTokenNumber "1";
               mkJsonToken JsonTokenArrayEnd "]"]
  = Throw (ParserException "Unexpected token: [")
          (setArray (getArray value) (setType VArray value),
           [mkJsonToken JsonTokenArrayStart "[";
            mkJsonToken JsonTokenNumber "1";
            mkJsonToken JsonTokenArrayEnd "]"]) /\
  scan "[{}"
  = Normal [mkJsonToken JsonTokenArrayStart "[";
            mkJsonToken JsonTokenObjectStart "{";
            mkJsonToken JsonTokenObjectEnd "}"] /\
  parse value [mkJsonToken JsonTokenArrayStart "[";
               mkJsonToken JsonTokenObjectStart "{";
               mkJsonToken JsonTokenObjectEnd "}"]
  = Throw (ParserException "Unexpected token: }")
          (setArray (getArray value) (setType VArray value),
           [mkJsonToken JsonTokenObjectEnd "}"]).
Proof.
  intro Hv. split; [|repeat split].
  cbn [round_trip_tree JsonValue.of_array] in Hv.
  apply andb_prop in Hv as [Hfirst Hall].
  destruct l as [|first l0]; [discriminate|].
  apply negb_true_iff in Hfirst.
  set (l := first :: l0) in *.
  unfold parse, parse_fuel. cbn [length].
  replace (3 * S (length (separated tokens_of l)) + 3)%nat
    with (S (S (3 * length (separated tokens_of l) + 4))) by lia.
  destruct (first_token first
              (match l0 with [] => [] | _ => [mkJsonToken JsonTokenNext ","] end
               ++ separated tokens_of l0) Hfirst) as [t [ts' [Hhd Ht]]].
  assert (Hsep : separated tokens_of l = t :: ts') by exact Hhd.
  cbn [parse_value token_type parseArray processToken
         JsonTokenType_eqb negb andb tl].
  rewrite Hsep.
  cbn [current_type_differs negb andb]. rewrite Ht. cbn [negb].
  rewrite <- Hsep.
  rewrite (parseArray_loop_open l (Forall_parses_tree l Hall)
             (getArray (setType VArray value)));
    [| discriminate | lia].
  reflexivity.
Qed.

Lemma parse_unterminated_array_witness :
  round_trip_tree
    (JsonValue.of_array [JsonValue.of_bool true; JsonValue.of_int64 7]) = true /\
  parse JsonValue.default
    (mkJsonToken JsonTokenArrayStart "["
       :: separated tokens_of [JsonValue.of_bool true; JsonValue.of_int64 7])
  = Throw (ParserException "Not compleated json data")
          (setArray
             (getArray JsonValue.default
                ++ map reread [JsonValue.of_bool true; JsonValue.of_int64 7])%list
             (setType VArray JsonValue.default), []).
Proof.
  split; [reflexivity|].
  apply (parse_unterminated_array
           [JsonValue.of_bool true; JsonValue.of_int64 7]).
  reflexivity.
Defined.

(** ** Objects *)

Lemma parse_object_loop_any (l : list (string * JsonValue)) :
  Forall (fun it => parses (snd it)) l ->
  forall obj obj' fuel rest,
    l <> [] ->
    insert_each l obj = Some obj' ->
    (3 * length (separated member_tokens l) <= fuel)%nat ->
    parse_object_loop fuel obj
      (separated member_tokens l ++ mkJsonToken JsonTokenObjectEnd "}" :: rest)
    = Normal (obj', mkJsonToken JsonTokenObjectEnd "}" :: rest).
Proof.
  induction 1 as [|[key member] l Hit Hl IH];
    intros obj obj' fuel rest Hne Heach Hfuel; [congruence|].
  cbn [insert_each fst snd] in Heach.
  destruct (JsonObject.find key obj) eqn:Hfind; [discriminate|].
  cbn [separated] in *. unfold parses in Hit. cbn [snd] in Hit.
  change (member_tokens (key, member))
    with (mkJsonToken JsonTokenString key :: mkJsonToken JsonTokenAssign ":"
            :: tokens_of member) in *.
  rewrite !length_app in Hfuel. cbn [length] in Hfuel.
  destruct fuel as [|fuel]; [lia|].
  rewrite <- ?app_assoc. cbn [app].
  cbn [parse_object_loop processToken token_type token_value
         JsonTokenType_eqb negb andb tl].
  rewrite <- ?app_assoc.
  rewrite (Hit fuel) by lia.
  rewrite Hfind.
  destruct l as [|it' l'].
  - cbn [insert_each] in Heach. injection Heach as <-.
    cbn [separated app map]. cbn. reflexivity.
  - cbn [app]. cbn [processToken token_type JsonTokenType_eqb negb andb tl].
    assert (Hnext : forall ts : list JsonToken,
               (separated member_tokens (it' :: l') ++ ts)%list <> []).
    { intro ts. cbn [separated member_tokens app]. discriminate. }
    destruct (separated member_tokens (it' :: l')
                ++ mkJsonToken JsonTokenObjectEnd "}" :: rest)%list eqn:E;
      [apply Hnext in E; contradiction|].
    rewrite <- E. cbn [negb].
    apply IH; [discriminate | exact Heach | lia].
Qed.

Lemma insert_each_well_formed (l : list (string * JsonValue)) :
  forall obj obj',
    insert_each l obj = Some obj' ->
    JsonObject.well_formed obj = true -> JsonObject.well_formed obj' = true.
Proof.
  induction l as [|it l IH]; intros obj obj' Heach Hwf; cbn [insert_each] in Heach.
  - congruence.
  - destruct (JsonObject.find (fst it) obj); [discriminate|].
    apply (IH _ _ Heach). apply insert_shape, Hwf.
Qed.

Lemma insert_each_fresh (l : list (string * JsonValue)) :
  forall obj obj' key v,
    insert_each l obj = Some obj' ->
    JsonObject.find key obj = Some v -> JsonObject.find key l = None.
Proof.
  induction l as [|[k member] l IH]; intros obj obj' key v Heach Hkey;
    cbn [insert_each fst snd] in Heach; cbn [JsonObject.find];
    [reflexivity|].
  destruct (JsonObject.find k obj) eqn:Hk; [discriminate|].
  destruct (String.eqb_spec key k) as [->|Hne]; [congruence|].
  apply (IH _ _ key v Heach).
  rewrite insert_find. apply String.eqb_neq in Hne. rewrite Hne. exact Hkey.
Qed.

Lemma insert_each_find (l : list (string * JsonValue)) :
  forall obj obj' key,
    insert_each l obj = Some obj' ->
    JsonObject.find key obj'
    = match JsonObject.find key l with
      | Some member => Some (reread member)
      | None => JsonObject.find key obj
      end.
Proof.
  induction l as [|[k member] l IH]; intros obj obj' key Heach;
    cbn [insert_each fst snd] in Heach; cbn [JsonObject.find].
  - congruence.
  - destruct (JsonObject.find k obj) eqn:Hk; [discriminate|].
    rewrite (IH _ _ key Heach), insert_find.
    destruct (String.eqb_spec key k) as [->|Hne]; [|reflexivity].
    rewrite (insert_each_fresh l _ _ k (reread member) Heach); [reflexivity|].
    rewrite insert_find, String.eqb_refl. reflexivity.
Qed.

(** For an object text of one member at least whose member values are
    trees of the round trip, [read] enters the members one by one under
    their names, whatever the order in which the text has them and
    whatever the target holds already, as long as no name is met twice:
    the target gets the tag Object, its entries stay in key order, and
    every member of the text is found under its name afterwards.  The
    condition on the member values is needed: a member that is an empty
    array or an empty object makes [read] throw on its closing bracket,
    with no name met twice. *)
Theorem read_object_any_order (text : string) (l : list (string * JsonValue))
  (value : JsonValue) (obj' : JsonObject) :
  scan text
  = Normal (mkJsonToken JsonTokenObjectStart "{"
              :: separated member_tokens l
              ++ [mkJsonToken JsonTokenObjectEnd "}"]) ->
  JsonObject.empty l = false ->
  forallb (fun it => round_trip_tree (snd it)) l = true ->
  insert_each l (getObject value) = Some obj' ->
  read text value = Normal (setObject obj' (setType VObject value)) /\
  (JsonObject.well_formed (getObject value) = true ->
   JsonObject.well_formed obj' = true) /\
  (forall key,
     JsonObject.find key obj'
     = match JsonObject.find key l with
       | Some member => Some (reread member)
       | None => JsonObject.find key (getObject value)
       end) /\
  read ("{" ++ quoted "a" ++ ":[]}") JsonValue.default
  = Throw (ParserException "Unexpected token: ]")
          (setType VObject JsonValue.default) /\
  read ("{" ++ quoted "a" ++ ":{}}") JsonValue.default
  = Throw (ParserException "Unexpected token: }")
          (setType VObject JsonValue.default).
Proof.
  intros Hscan Hne Hall Heach. split;
    [|split; [apply (insert_each_well_formed l _ _ Heach)
             |split; [intro key; apply (insert_each_find l _ _ key Heach)
                     |split; reflexivity]]].
  unfold read. rewrite Hscan.
  destruct l as [|[key member] l0]; [discriminate|].
  set (l := (key, member) :: l0) in *.
  assert (Hparses : Forall (fun it => parses (snd it)) l).
  { clear -Hall. induction l as [|it l IH]; constructor;
      cbn [forallb] in Hall; apply andb_prop in Hall as [H1 H2];
      [apply parse_tokens_tree, H1 | apply IH, H2]. }
  unfold parse, parse_fuel. cbn [length]. rewrite length_app. cbn [length].
  replace (3 * S (length (separated member_tokens l) + 1) + 3)%nat
    with (S (S (S (3 * length (separated member_tokens l) + 6)))) by lia.
  assert (Hhd : exists ts',
             (separated member_tokens l
                ++ [mkJsonToken JsonTokenObjectEnd "}"])%list
             = mkJsonToken JsonTokenString key :: ts')
    by (eexists; reflexivity).
  destruct Hhd as [ts' Hhd].
  cbn [parse_value token_type parseObject parse_object processToken
         JsonTokenType_eqb negb andb tl].
  rewrite Hhd.
  cbn [current_type_differs token_type JsonTokenType_eqb negb andb].
  rewrite <- Hhd.
  rewrite (parse_object_loop_any l Hparses
             (getObject (setType VObject value)) obj' _ []);
    [reflexivity | discriminate | exact Heach | lia].
Qed.

Lemma read_object_any_order_witness :
  scan ("{" ++ quoted "b" ++ ":true," ++ quoted "a" ++ ":null}")
  = Normal (mkJsonToken JsonTokenObjectStart "{"
              :: separated member_tokens
                   [("b", JsonValue.of_bool true); ("a", JsonValue.default)]
              ++ [mkJsonToken JsonTokenObjectEnd "}"]) /\
  read ("{" ++ quoted "b" ++ ":true," ++ quoted "a" ++ ":null}")
    JsonValue.default
  = Normal (setObject
              [("a", JsonValue.default); ("b", JsonValue.of_bool true)]
              (setType VObject JsonValue.default)).
Proof.
  split; [reflexivity|].
  apply (read_object_any_order
           ("{" ++ quoted "b" ++ ":true," ++ quoted "a" ++ ":null}")
           [("b", JsonValue.of_bool true); ("a", JsonValue.default)]
           JsonValue.default
           [("a", JsonValue.default); ("b", JsonValue.of_bool true)]);
    reflexivity.
Defined.

(** ** The shape of what the reader builds *)

Lemma parsed_shape_fields (v : JsonValue) :
  parsed_shape v = true <->
  reader_tag (_type v) = true /\ object_shape (_object v) = true
  /\ forallb parsed_shape (_array v) = true.
Proof.
  destruct v as [number integer64 uint64 boolean str object array type].
  cbn [parsed_shape _type _object _array]. unfold object_shape.
  rewrite !andb_true_iff. tauto.
Qed.

Lemma insert_forallb (p : string * JsonValue -> bool) (key : string)
  (value : JsonValue) (o : JsonObject) :
  p (key, value) = true -> forallb p o = true ->
  forallb p (JsonObject.insert key value o) = true.
Proof.
  intros Hp. induction o as [|[k v] o IH]; cbn [JsonObject.insert forallb].
  - rewrite Hp. reflexivity.
  - intro H. apply andb_prop in H as [H1 H2].
    destruct (String.compare key k); cbn [forallb];
      rewrite ?Hp, ?H1, ?H2, ?IH; auto.
Qed.

Lemma insert_object_shape (key : string) (value : JsonValue) (o : JsonObject) :
  parsed_shape value = true -> object_shape o = true ->
  object_shape (JsonObject.insert key value o) = true.
Proof.
  unfold object_shape. intros Hv Ho. apply andb_prop in Ho as [Hwf Hall].
  rewrite (proj1 (insert_shape key value o Hwf)).
  rewrite insert_forallb; auto.
Qed.

Lemma parse_keeps_shape_all (fuel : nat) : parse_keeps_shape fuel.
Proof.
  induction fuel as [|fuel (IHv & IHo & IHp & IHl & IHa & IHm)];
    unfold parse_keeps_shape.
  - repeat split; intros; exact I.
  - repeat split.
    + (* parse_value *)
      intros value ts Hv. cbn [parse_value].
      destruct ts as [|t ts0]; [exact Hv|].
      destruct (token_type t); cbn [leaves]; auto;
        unfold parseString, parseNumber, parseBoolean, parseEmpty;
        apply parsed_shape_fields in Hv as (Htag & Hobj & Harr);
        apply parsed_shape_fields; repeat split;
        try exact Hobj; try exact Harr; try reflexivity.
      all: destruct (PrimFloat.eqb _ 0); first [reflexivity|assumption].
    + (* parseObject *)
      intros value ts Hv. cbn [parseObject].
      apply parsed_shape_fields in Hv as (Htag & Hobj & Harr).
      specialize (IHp (getObject (setType VObject value)) ts Hobj).
      destruct (parse_object fuel _ ts) as [[o ts']|e [o ts']|];
        cbn [leaves] in *; auto;
        apply parsed_shape_fields; repeat split; assumption.
    + (* parse_object *)
      intros obj ts Hobj. cbn [parse_object].
      destruct (processToken JsonTokenObjectStart true true ts)
        as [[more ts1]|e]; [|exact Hobj].
      assert (Hloop : leaves object_shape
                        (if more && current_type_differs JsonTokenObjectStart ts1
                         then parse_object_loop fuel obj ts1
                         else Normal (obj, ts1))).
      { destruct (more && _); [apply IHl; exact Hobj|exact Hobj]. }
      destruct (if more && _ then _ else _) as [[o ts2]|e [o ts2]|];
        cbn [leaves] in Hloop |- *; auto.
      destruct (processToken JsonTokenObjectEnd true true ts2)
        as [[m3 ts3]|e]; exact Hloop.
    + (* parse_object_loop *)
      intros obj ts Hobj. cbn [parse_object_loop].
      destruct (processToken JsonTokenString false true ts)
        as [[m0 ts0]|e]; [|exact Hobj].
      destruct (processToken JsonTokenAssign true true (tl ts))
        as [[m2 ts2]|e]; [|exact Hobj].
      specialize (IHv JsonValue.default ts2 eq_refl).
      destruct (parse_value fuel JsonValue.default ts2)
        as [[value ts3]|e [value ts3]|]; cbn [leaves] in IHv |- *; auto.
      destruct (JsonObject.find _ obj); [exact Hobj|].
      pose proof (insert_object_shape
                    (match ts with t :: _ => token_value t | [] => "" end)
                    value obj IHv Hobj) as Hins.
      destruct (processToken JsonTokenNext true false ts3)
        as [[go ts4]|e]; [|exact Hins].
      destruct go; [apply IHl; exact Hins|exact Hins].
    + (* parseArray *)
      intros value ts Hv. cbn [parseArray].
      apply parsed_shape_fields in Hv as (Htag & Hobj & Harr).
      assert (Hset : forall array, forallb parsed_shape array = true ->
                parsed_shape (setArray array (setType VArray value)) = true).
      { intros array Ha. apply parsed_shape_fields. repeat split; assumption. }
      destruct (processToken JsonTokenArrayStart true true ts)
        as [[more ts1]|e];
        [|cbn [leaves]; apply parsed_shape_fields; repeat split; assumption].
      assert (Hloop : leaves (forallb parsed_shape)
                        (if more && current_type_differs JsonTokenArrayStart ts1
                         then parseArray_loop fuel
                                (getArray (setType VArray value)) ts1
                         else Normal (getArray (setType VArray value), ts1))).
      { destruct (more && _); [apply IHm; exact Harr|exact Harr]. }
      destruct (if more && _ then _ else _) as [[a ts2]|e [a ts2]|];
        cbn [leaves] in Hloop |- *; auto.
      destruct (processToken JsonTokenArrayEnd true true ts2)
        as [[m3 ts3]|e]; cbn [leaves]; auto.
    + (* parseArray_loop *)
      intros array ts Harr. cbn [parseArray_loop].
      specialize (IHv JsonValue.default ts eq_refl).
      destruct (parse_value fuel JsonValue.default ts)
        as [[value ts1]|e [value ts1]|]; cbn [leaves] in IHv |- *; auto.
      assert (Hpush : forallb parsed_shape (JsonArray.pushBack value array)
                      = true).
      { unfold JsonArray.pushBack. rewrite forallb_app. cbn [forallb].
        rewrite Harr, IHv. reflexivity. }
      destruct (processToken JsonTokenNext true false ts1)
        as [[go ts2]|e]; [|exact Hpush].
      destruct go; [apply IHm; exact Hpush|exact Hpush].
Qed.

(** Whatever the text, [read] into a value of this shape leaves a value
    of this shape, whether it returns or throws: no node is tagged Int64
    or Uint64, and every object has its member names in key order, each
    name once. *)
Theorem read_keeps_shape (text : string) (value : JsonValue) :
  parsed_shape value = true ->
  match read text value with
  | Normal value' | Throw _ value' => parsed_shape value' = true
  | Diverge => True
  end.
Proof.
  intro Hv. unfold read.
  destruct (scan text) as [tokens|e tokens|]; auto.
  pose proof (proj1 (parse_keeps_shape_all (parse_fuel tokens)) value tokens Hv)
    as H.
  unfold parse. destruct (parse_value _ value tokens) as [[v ts]|e [v ts]|];
    exact H.
Qed.

Lemma read_keeps_shape_witness :
  parsed_shape JsonValue.default = true /\
  match read duplicate_text JsonValue.default with
  | Normal value' | Throw _ value' => parsed_shape value' = true
  | Diverge => True
  end.
Proof.
  split; [reflexivity|].
  apply (read_keeps_shape duplicate_text JsonValue.default). reflexivity.
Defined.

(** * Further properties of the writer *)

(** What [write(const JsonValue &)] adds for a value depends on the value
    and on the depth alone: it is added after what the writer holds, and
    the depth is the same after the call as before. *)
Theorem write_value_appends (v : JsonValue) (w : JsonWriter) :
  write_value v w
  = mkJsonWriter
      (_output w ++ _output (write_value v (mkJsonWriter "" (_depth w))))
      (_depth w).
Proof.
  rewrite !write_value_render. reflexivity.
Qed.

(** ** Writing what was read *)

Lemma eqb_same (d r : float) :
  PrimFloat.eqb d r = true ->
  Prim2SF d = Prim2SF r \/
  (exists s s', Prim2SF d = S754_zero s /\ Prim2SF r = S754_zero s').
Proof.
  rewrite FloatAxioms.eqb_spec. unfold SFeqb, SFcompare.
  destruct (Prim2SF d) as [s| s| |s m e], (Prim2SF r) as [s'|s'| |s' m' e'];
    try discriminate; try (destruct s; discriminate);
    try (destruct s'; discriminate).
  - intros _. right. eauto.
  - destruct s, s'; try discriminate; intros _; left; reflexivity.
  - destruct s, s'; try discriminate;
      destruct (Z.compare e e') eqn:He; try discriminate;
      apply Z.compare_eq in He; subst e';
      destruct (Pos.compare_cont Eq m m') eqn:Hm; try discriminate;
      apply Pos.compare_eq in Hm; subst m'; intros _; left; reflexivity.
Qed.

Lemma zero_eqb_0 (r : float) (s : bool) :
  Prim2SF r = S754_zero s -> PrimFloat.eqb r 0 = true.
Proof.
  intro H. rewrite FloatAxioms.eqb_spec, H. reflexivity.
Qed.

Lemma lines_map {A : Type} (f g : A -> string) (h : A -> A) (l : list A) :
  Forall (fun x => g (h x) = f x) l -> lines g (map h l) = lines f l.
Proof.
  induction 1 as [|x l Hx Hl IH]; cbn [map lines]; [reflexivity|].
  rewrite Hx, IH. destruct l; reflexivity.
Qed.

Lemma render_number (type : DataType) (text : string) (d : float)
  (depth : nat) :
  reads_back_as type text d = true ->
  (type = VInt \/ type = VDouble) ->
  render depth (fst (parseNumber JsonValue.default
                       [mkJsonToken JsonTokenNumber text]))
  = match type with
    | VInt => to_string_int (double_to_int d)
    | _ => to_string_double d
    end.
Proof.
  unfold reads_back_as, parseNumber. cbn [token_value fst].
  intros H Htype. apply andb_prop in H as [Htag Heq].
  apply eqb_same in Heq.
  destruct (PrimFloat.eqb (fst (modf (stream_to_double text))) 0) eqn:Hfrac;
    destruct Htype as [-> | ->]; try discriminate Htag;
    cbn [render setNumber setType JsonValue.default _double _type].
  - unfold double_to_int.
    destruct Heq as [-> | (s & s' & -> & ->)]; reflexivity.
  - unfold to_string_double.
    destruct Heq as [-> | (s & s' & Hd & Hr)]; [reflexivity|].
    exfalso. unfold modf in Hfrac. rewrite Hr in Hfrac. cbn [fst] in Hfrac.
    rewrite (zero_eqb_0 _ _ Hr) in Hfrac. discriminate.
Qed.

Lemma render_reread (v : JsonValue) :
  round_trippable v = true ->
  forall depth, render depth (reread v) = render depth v.
Proof.
  induction v as [number integer64 uint64 boolean str object array type
                    IHo IHa] using JsonValue_induction.
  intros Hv depth.
  destruct type; cbn [round_trippable] in Hv; try discriminate;
    cbn [reread tokens_of]; try reflexivity.
  - rewrite (render_number VInt _ number depth Hv); auto.
  - rewrite (render_number VDouble _ number depth Hv); auto.
  - apply andb_prop in Hv as [_ Hall].
    cbn [render JsonValue.of_object].
    rewrite (lines_map
               (fun it => tabs (S depth) ++ quoted (escape_json_string (fst it))
                            ++ " : " ++ render (S depth) (snd it))
               (fun it => tabs (S depth) ++ quoted (escape_json_string (fst it))
                            ++ " : " ++ render (S depth) (snd it))
               (fun it => (fst it, reread (snd it)))).
    + destruct object; reflexivity.
    + clear -Hall IHo. induction IHo as [|it l Hit _ IH]; constructor.
      * cbn [fst snd]. rewrite Hit; [reflexivity|].
        simpl in Hall. apply andb_prop in Hall as [Hall _].
        apply andb_prop in Hall as [_ Hall]. exact Hall.
      * apply IH. simpl in Hall. apply andb_prop in Hall as [_ Hall].
        exact Hall.
  - apply andb_prop in Hv as [_ Hall].
    cbn [render JsonValue.of_array].
    rewrite (lines_map
               (fun it => tabs (S depth) ++ render (S depth) it)
               (fun it => tabs (S depth) ++ render (S depth) it)
               reread).
    + destruct array; reflexivity.
    + clear -Hall IHa. induction IHa as [|it l Hit _ IH]; constructor.
      * rewrite Hit; [reflexivity|].
        simpl in Hall. apply andb_prop in Hall as [Hall _]. exact Hall.
      * apply IH. simpl in Hall. apply andb_prop in Hall as [_ Hall].
        exact Hall.
Qed.

(** For the trees of the round trip, writing the value that was read
    back from the written text gives the same text again. *)
Theorem write_read_write (v : JsonValue) :
  round_trippable v = true ->
  exists v', read (write v) JsonValue.default = Normal v'
             /\ write v' = write v.
Proof.
  intro Hv. exists (reread v). split; [apply read_write, Hv|].
  rewrite !write_render. apply render_reread, Hv.
Qed.

Lemma write_read_write_witness :
  round_trippable sample_document = true /\
  exists v', read (write sample_document) JsonValue.default = Normal v'
             /\ write v' = write sample_document.
Proof.
  split; [reflexivity|]. apply (write_read_write sample_document). reflexivity.
Defined.

(** * The labels of the members in the tree *)

Lemma member_text_stream (textSize : string) (it : string * JsonValue) :
  fst (member_text textSize it) = textSize ++ container_sizes [it].
Proof.
  unfold member_text, stream_size. cbn [container_sizes].
  destruct (getType (snd it)); cbn [fst]; rewrite ?append_nil_r; reflexivity.
Qed.

Lemma member_texts_app (o1 : JsonObject) :
  forall textSize o2,
    member_texts textSize (o1 ++ o2)%list
    = (member_texts textSize o1
         ++ member_texts (textSize ++ container_sizes o1) o2)%list.
Proof.
  induction o1 as [|it o1 IH]; intros textSize o2; cbn [app member_texts].
  - cbn [container_sizes]. rewrite append_nil_r. reflexivity.
  - pose proof (member_text_stream textSize it) as Hs.
    destruct (member_text textSize it) as [textSize' text]. cbn [fst] in Hs.
    subst textSize'. rewrite IH. cbn [app container_sizes].
    rewrite append_nil_r, append_assoc. reflexivity.
Qed.

Lemma member_texts_length (o : JsonObject) :
  forall textSize, length (member_texts textSize o) = length o.
Proof.
  induction o as [|it o IH]; intro textSize; cbn [member_texts length];
    [reflexivity|].
  destruct (member_text textSize it). cbn [length]. rewrite IH. reflexivity.
Qed.

Lemma container_sizes_app (o1 o2 : JsonObject) :
  container_sizes (o1 ++ o2)%list = container_sizes o1 ++ container_sizes o2.
Proof.
  induction o1 as [|it o1 IH]; cbn [app container_sizes]; [reflexivity|].
  rewrite IH, append_assoc. reflexivity.
Qed.

(** Unless the filter keeps the value out, in which case nothing is
    written, each round of the loop of [generateObjectInTree] passes to
    [node2->set_string(0, text)] the name of the member, followed for a
    member that is an array or an object by the sizes of all such members
    up to it one after another between brackets or braces, not by its own
    size alone: the stream [textSize] is declared before the loop and
    never emptied.  What [generateTree] writes to the same node afterwards
    is listed with the text: for a null member it overwrites the text
    with <<null>>.  In the object of an array of two elements, an object
    of one member, a null and a string, the object is labelled with 21. *)
Theorem generateObjectInTree_sizes_accumulate (value : JsonValue)
  (o1 o2 : JsonObject) (key : string) (member : JsonValue) :
  nth_error
    (generateObjectInTree_texts false
       (setObject (o1 ++ (key, member) :: o2)%list value))
    (length o1)
  = Some (key
            ++ match getType member with
               | VArray =>
                   "[" ++ container_sizes (o1 ++ [(key, member)])%list ++ "]"
               | VObject =>
                   "{" ++ container_sizes (o1 ++ [(key, member)])%list ++ "}"
               | _ => ""
               end,
          match getType member with
          | VEmpty => Some ["<<null>>"]
          | VObject => None
          | _ => Some []
          end) /\
  generateObjectInTree_texts true value = [] /\
  generateObjectInTree_texts false labelled_document
  = [("a[2]", Some []); ("b{21}", None); ("n", Some ["<<null>>"]);
     ("s", Some [])].
Proof.
  split; [|split; reflexivity].
  unfold generateObjectInTree_texts. cbn [getObject setObject _object].
  rewrite member_texts_app, nth_error_app2; rewrite member_texts_length;
    [|lia].
  rewrite Nat.sub_diag. cbn [member_texts append].
  rewrite container_sizes_app. cbn [container_sizes].
  unfold member_text, stream_size, generateTree_texts. cbn [fst snd].
  destruct (getType member); cbn [nth_error]; rewrite ?append_nil_r;
    reflexivity.
Qed.
